(** * Financial dashboard (src/index.tsx): value formatter, series projector,
      cell styling and chart export, embedded over a model of the ECMAScript
      operations the source calls.

    Numbers are IEEE-754 binary64 values ([PrimFloat.float]); their exact
    rational value is read through [Prim2SF].  Strings are sequences of
    bytes (UTF-8), which agrees with ECMAScript strings on every character
    the source tests or emits except the infinity sign, held as its UTF-8
    encoding. *)

From Stdlib Require Import ZArith QArith Qround Lia Lqa List Bool Ascii String.
From Stdlib Require Import Floats Permutation Sorted.
Import ListNotations.

Set Warnings "-inexact-float".

Local Open Scope string_scope.
Local Open Scope Z_scope.

(* ================================================================== *)
(** ** ECMAScript values and completions *)

Module JS.

(** Exceptions the modelled operations can raise. *)
Inductive Error : Type :=
| TypeError
| RangeError
| HostError (message : string).

(** A completion record: normal completion with a value, or an abrupt
    completion carrying the thrown error. *)
Inductive Completion (A : Type) : Type :=
| Normal (a : A)
| Throw (e : Error).

Arguments Normal {A} a.
Arguments Throw {A} e.

Declare Scope js_scope.
Delimit Scope js_scope with js.

Definition bind {A B : Type} (c : Completion A) (k : A -> Completion B)
  : Completion B :=
  match c with
  | Normal a => k a
  | Throw e => Throw e
  end.

Notation "x <- c ;; k" := (bind c (fun x => k))
  (at level 61, c at next level, right associativity) : js_scope.

(** [Array.prototype.map] with a callback that may throw: elements are
    visited left to right and the first abrupt completion aborts the loop. *)
Fixpoint mapM {A B : Type} (f : A -> Completion B) (l : list A)
  : Completion (list B) :=
  match l with
  | [] => Normal []
  | x :: rest =>
      bind (f x) (fun y => bind (mapM f rest) (fun ys => Normal (y :: ys)))
  end.

(** The ECMAScript language values.  An object is held by reference; the
    flag tells whether it is callable. *)
Inductive Value : Type :=
| VUndefined
| VNull
| VBool (b : bool)
| VNum (x : float)
| VStr (s : string)
| VSymbol (id : nat)
| VBigInt (z : Z)
| VObject (ref : nat) (callable : bool).

(** The [typeof] operator. *)
Definition typeof (v : Value) : string :=
  match v with
  | VUndefined => "undefined"
  | VNull => "object"
  | VBool _ => "boolean"
  | VNum _ => "number"
  | VStr _ => "string"
  | VSymbol _ => "symbol"
  | VBigInt _ => "bigint"
  | VObject _ callable => if callable then "function" else "object"
  end.

(** [String.prototype.includes]: does [search] occur in [s] at some
    position? *)
Fixpoint String_includes (s search : string) : bool :=
  String.prefix search s ||
  match s with
  | EmptyString => false
  | String _ rest => String_includes rest search
  end.

(** *** Decimal digits *)

Definition digit_char (d : Z) : ascii := ascii_of_nat (48 + Z.to_nat d).

Fixpoint decimal_aux (fuel : nat) (n : Z) (acc : string) : string :=
  match fuel with
  | O => acc
  | S fuel' =>
      let acc' := String (digit_char (n mod 10)) acc in
      if n <? 10 then acc' else decimal_aux fuel' (n / 10) acc'
  end.

(** The decimal representation of a non-negative integer, without leading
    zeros ("0" for zero). *)
Definition decimal (n : Z) : string :=
  decimal_aux (S (Z.to_nat (Z.log2 n))) n "".

Fixpoint zeros (k : nat) : string :=
  match k with
  | O => ""
  | S k' => String "0" (zeros k')
  end.

(** Steps 10.b-10.d of [Number.prototype.toFixed] (shared with ECMA-402's
    ToRawFixed): the digits of [n], padded on the left so that at least one
    digit stands before the last [f], with a point before the last [f]. *)
Definition fixed_digits (n : Z) (f : nat) : string :=
  let m := decimal n in
  match f with
  | O => m
  | S _ =>
      let k := String.length m in
      let m' := if (k <=? f)%nat then zeros (f + 1 - k) ++ m else m in
      let k' := String.length m' in
      substring 0 (k' - f) m' ++ "." ++ substring (k' - f) f m'
  end.

(** *** Exact values of numbers *)

(** The exact value of the finite positive number [m * 2^e]. *)
Definition Q_of_finite (m : positive) (e : Z) : Q :=
  match e with
  | Z0 => inject_Z (Zpos m)
  | Zpos p => inject_Z (Zpos m * 2 ^ Zpos p)
  | Zneg p => Qmake (Zpos m) (2 ^ p)%positive
  end.

(** Round a non-negative rational to the nearest integer, a tie going to
    the larger one ("pick the larger n" in toFixed, "halfExpand" in
    ECMA-402 for a magnitude). *)
Definition round_half_up (q : Q) : Z := Qfloor (q + (1 # 2))%Q.

Definition pow10 (k : nat) : Z := 10 ^ Z.of_nat k.

(** *** The shortest decimal that reads back as a number *)

Fixpoint ndigits_aux (fuel : nat) (n : Z) : nat :=
  match fuel with
  | O => 1%nat
  | S fuel' => if n <? 10 then 1%nat else S (ndigits_aux fuel' (n / 10))
  end.

(** Number of decimal digits of a positive integer. *)
Definition ndigits (n : Z) : nat := ndigits_aux (Z.to_nat (Z.log2 n)) n.

(** floor(log10 q) for a positive rational. *)
Definition magnitude (q : Q) : Z :=
  let a := Qnum q in
  let b := Zpos (Qden q) in
  if b <=? a then Z.of_nat (ndigits (a / b)) - 1
  else
    let t := Z.of_nat (ndigits (b / a)) - 1 in
    if a * 10 ^ t =? b then - t else - (t + 1).

(** [10^k] as a rational, for any integer [k]. *)
Definition exp10 (k : Z) : Q :=
  match k with
  | Z0 => 1
  | Zpos p => inject_Z (10 ^ Zpos p)
  | Zneg p => 1 # (10 ^ p)%positive
  end.

Definition Qlt_bool (a b : Q) : bool := negb (Qle_bool b a).

(** Does the real [c] round to the double [m * 2^e] (round to nearest, ties
    to even)?  The bounds are the midpoints towards the neighbouring
    doubles; the lower neighbour is half as far when [m] is the least
    53-bit mantissa of a normal number. *)
Definition round_trips (m : positive) (e : Z) (c : Q) : bool :=
  let lo :=
    if (m =? 4503599627370496)%positive && negb (e =? -1074)
    then Q_of_finite (4 * m - 1) (e - 2)
    else Q_of_finite (2 * m - 1) (e - 1) in
  let hi := Q_of_finite (2 * m + 1) (e - 1) in
  if Z.even (Zpos m) then Qle_bool lo c && Qle_bool c hi
  else Qlt_bool lo c && Qlt_bool c hi.

(** Number::toString, step 5: the least number of significant digits [k]
    for which some [s] of [k] digits has [s * 10^p] rounding back to the
    double; among several [s] the one nearest to the double, and the even
    one when two are as near.  Returns [(s, p)]. *)
Fixpoint shortest_digits (fuel : nat) (k : nat) (m : positive) (e : Z)
  : Z * Z :=
  let x := Q_of_finite m e in
  let p := magnitude x + 1 - Z.of_nat k in
  let s1 := Qfloor (x * exp10 (- p))%Q in
  let s2 := s1 + 1 in
  let c1 := (inject_Z s1 * exp10 p)%Q in
  let c2 := (inject_Z s2 * exp10 p)%Q in
  match fuel with
  | O => (s1, p)
  | S fuel' =>
      if round_trips m e c1 && round_trips m e c2 then
        match ((x - c1) ?= (c2 - x))%Q with
        | Lt => (s1, p)
        | Gt => (s2, p)
        | Eq => if Z.even s1 then (s1, p) else (s2, p)
        end
      else if round_trips m e c1 then (s1, p)
      else if round_trips m e c2 then (s2, p)
      else shortest_digits fuel' (S k) m e
  end.

(** The digits [s] and decimal exponent [p] a finite non-zero number prints
    with: seventeen significant digits always suffice. *)
Definition shortest_decimal (m : positive) (e : Z) : Z * Z :=
  let '(s, p) := shortest_digits 17 1 m e in
  if s =? 10 then (1, p + 1) else (s, p).

(** Number::toString(x) for a finite [x = m * 2^e >= 10^21], the only
    finite operands toFixed hands over: exponential notation, as [n > 21]
    there. *)
Definition Number_toString_large (m : positive) (e : Z) : string :=
  let '(s, p) := shortest_decimal m e in
  let digits := decimal s in
  let n := Z.of_nat (String.length digits) + p in
  let expo := decimal (n - 1) in
  match digits with
  | String d EmptyString => String d ("e+" ++ expo)
  | String d rest => String d ("." ++ rest ++ "e+" ++ expo)
  | EmptyString => ""
  end.

(** [Number.prototype.toFixed(fractionDigits)]. *)
Definition Number_toFixed (x : float) (fractionDigits : Z)
  : Completion string :=
  if (fractionDigits <? 0) || (100 <? fractionDigits) then Throw RangeError
  else
    let f := Z.to_nat fractionDigits in
    match Prim2SF x with
    | S754_nan => Normal "NaN"
    | S754_infinity false => Normal "Infinity"
    | S754_infinity true => Normal "-Infinity"
    | S754_zero _ => Normal (fixed_digits 0 f)
    | S754_finite neg m e =>
        let s := if neg then "-" else "" in
        let q := Q_of_finite m e in
        if Qle_bool (inject_Z (10 ^ 21)) q
        then Normal (s ++ Number_toString_large m e)
        else
          let n := round_half_up (q * inject_Z (pow10 f))%Q in
          Normal (s ++ fixed_digits n f)
    end.

(** *** Ordinary objects: own properties, key order, property reads *)

(** The own properties of an object created by an object literal, in the
    order the literal lists them. *)
Definition Properties : Type := list (string * Value).

Definition digit_value (c : ascii) : option Z :=
  let n := Z.of_nat (nat_of_ascii c) in
  if (48 <=? n) && (n <=? 57) then Some (n - 48) else None.

Fixpoint parse_digits (s : string) (acc : Z) : option Z :=
  match s with
  | EmptyString => Some acc
  | String c rest =>
      match digit_value c with
      | Some d => parse_digits rest (10 * acc + d)
      | None => None
      end
  end.

(** A property key is an array index when it is the canonical decimal
    string of an integer from 0 to 2^32 - 2. *)
Definition array_index (key : string) : option Z :=
  match key with
  | EmptyString => None
  | String c rest =>
      if Ascii.eqb c "0" && negb (rest =? "")%string then None
      else
        match parse_digits key 0 with
        | Some n => if n <=? 4294967294 then Some n else None
        | None => None
        end
  end.

Definition is_array_index (key : string) : bool :=
  match array_index key with
  | Some _ => true
  | None => false
  end.

(** Keys in creation order: a key defined again keeps its first place. *)
Fixpoint distinct_keys (seen : list string) (keys : list string)
  : list string :=
  match keys with
  | [] => []
  | k :: rest =>
      if existsb (String.eqb k) seen then distinct_keys seen rest
      else k :: distinct_keys (k :: seen) rest
  end.

Fixpoint insert_index (n : Z) (k : string) (l : list (Z * string))
  : list (Z * string) :=
  match l with
  | [] => [(n, k)]
  | (n', k') :: rest =>
      if n <=? n' then (n, k) :: l else (n', k') :: insert_index n k rest
  end.

Fixpoint sorted_indices (keys : list string) : list (Z * string) :=
  match keys with
  | [] => []
  | k :: rest =>
      match array_index k with
      | Some n => insert_index n k (sorted_indices rest)
      | None => sorted_indices rest
      end
  end.

(** OrdinaryOwnPropertyKeys, for string keys: the array indices in
    ascending numeric order, then the other keys in creation order. *)
Definition OwnPropertyKeys (props : Properties) : list string :=
  let keys := distinct_keys [] (map fst props) in
  (map snd (sorted_indices keys)
   ++ filter (fun k => negb (is_array_index k)) keys)%list.

(** The value of an own property: the last definition of the key. *)
Fixpoint GetOwnProperty (props : Properties) (key : string) : option Value :=
  match props with
  | [] => None
  | (k, v) :: rest =>
      match GetOwnProperty rest key with
      | Some v' => Some v'
      | None => if (k =? key)%string then Some v else None
      end
  end.

(** The members every ordinary object inherits from Object.prototype: the
    accessor [__proto__], which reads as the prototype object, and the
    built-in methods. *)
Definition ObjectPrototype_methods : list string :=
  [ "constructor"; "__defineGetter__"; "__defineSetter__"; "hasOwnProperty";
    "__lookupGetter__"; "__lookupSetter__"; "isPrototypeOf";
    "propertyIsEnumerable"; "toString"; "valueOf"; "toLocaleString" ].

Fixpoint position (key : string) (l : list string) : option nat :=
  match l with
  | [] => None
  | k :: rest =>
      if (k =? key)%string then Some 0%nat
      else option_map S (position key rest)
  end.

(** [o[key]] for an ordinary object with these own properties whose
    prototype is Object.prototype. *)
Definition Get (props : Properties) (key : string) : Value :=
  match GetOwnProperty props key with
  | Some v => v
  | None =>
      if (key =? "__proto__")%string then VObject 0 false
      else
        match position key ObjectPrototype_methods with
        | Some i => VObject (S i) true
        | None => VUndefined
        end
  end.

(** [a[i]] on an array: the element, or undefined past the end. *)
Definition Array_get {A : Type} (a : list A) (i : nat) : option A :=
  nth_error a i.

End JS.

(* ================================================================== *)
(** ** Intl.NumberFormat (ECMA-402) for the locale and options the source
       passes

    The abstract operations follow ECMA-402 (FormatNumeric, ComputeExponent,
    ToRawFixed, rounding mode halfExpand, sign display auto, grouping min2
    under compact notation).  A number is read through its shortest decimal
    that reads back as the same double, the digits Number::toString prints,
    as ICU does in the engines; that decimal is what gets rounded.  The
    locale-dependent parts are the en-US data of CLDR: currency sign before
    the number, point as decimal separator, comma as group separator, and
    the compact symbols K, M, B and T for thousands to trillions. *)

Module Intl.

Import JS.

Inductive Locale : Type := en_US.
Inductive Style : Type := StyleCurrency.
Inductive Currency : Type := USD.
Inductive Notation : Type := NotationCompact.

(** The options object given to the constructor. *)
Record Options : Type := {
  style : Style;
  currency : Currency;
  minimumFractionDigits : nat;
  maximumFractionDigits : nat;
  notation : Notation
}.

(** A constructed formatter: its resolved locale and options. *)
Record NumberFormatObject : Type := {
  nf_locale : Locale;
  nf_options : Options
}.

(** [new Intl.NumberFormat(locale, options)]: SetNumberFormatDigitOptions
    raises a RangeError when the fraction digit settings are out of range
    or inconsistent. *)
Definition NumberFormat (locale : Locale) (options : Options)
  : Completion NumberFormatObject :=
  if ((100 <? minimumFractionDigits options)
      || (100 <? maximumFractionDigits options)
      || (maximumFractionDigits options <? minimumFractionDigits options))%nat
  then Throw RangeError
  else Normal {| nf_locale := locale; nf_options := options |}.

(** ComputeExponentForMagnitude under compact notation: the power of ten
    the en-US short compact patterns scale a number of this magnitude by. *)
Definition ComputeExponentForMagnitude (mag : Z) : Z :=
  if mag <? 3 then 0
  else if mag <? 6 then 3
  else if mag <? 9 then 6
  else if mag <? 12 then 9
  else 12.

(** ToRawFixed, rounded integer: the [n] with [n / 10^f] nearest to [q],
    a tie going away from zero. *)
Definition ToRawFixed (q : Q) (f : nat) : Z :=
  round_half_up (q * inject_Z (pow10 f))%Q.

(** ComputeExponent for a positive [q] rounded to [f] fraction digits. *)
Definition ComputeExponent (q : Q) (f : nat) : Z :=
  let mag := magnitude q in
  let exponent := ComputeExponentForMagnitude mag in
  let x := (q * exp10 (- exponent))%Q in
  let n := ToRawFixed x f in
  if n =? 0 then exponent
  else
    let newMagnitude := magnitude (Qmake n (Z.to_pos (pow10 f))) in
    if newMagnitude =? mag - exponent then exponent
    else ComputeExponentForMagnitude (mag + 1).

(** The compact symbol of the en-US short pattern for an exponent. *)
Definition compact_symbol (exponent : Z) : string :=
  if exponent =? 3 then "K"
  else if exponent =? 6 then "M"
  else if exponent =? 9 then "B"
  else if exponent =? 12 then "T"
  else "".

(** The last [f] decimal digits of [n]. *)
Fixpoint fraction_digits (f : nat) (n : Z) : string :=
  match f with
  | O => ""
  | S f' => fraction_digits f' (n / 10) ++ String (digit_char (n mod 10)) ""
  end.

(** Drop up to [cut] trailing zeros of a fraction, given reversed. *)
Fixpoint cut_trailing_zeros (cut : nat) (rev_fraction : list ascii)
  : list ascii :=
  match cut, rev_fraction with
  | S cut', c :: rest =>
      if Ascii.eqb c "0" then cut_trailing_zeros cut' rest else rev_fraction
  | _, _ => rev_fraction
  end.

Fixpoint group_from (lead : nat) (s : string) : string :=
  match s with
  | EmptyString => ""
  | String c rest =>
      match lead with
      | O => String "," (String c (group_from 2 rest))
      | S lead' => String c (group_from lead' rest)
      end
  end.

(** Grouping "min2": separators between groups of three integer digits,
    used only when at least two digits stand before the first separator,
    that is from five integer digits on. *)
Definition group_min2 (integer : string) : string :=
  let k := String.length integer in
  if (5 <=? k)%nat then group_from ((k - 1) mod 3 + 1) integer else integer.

Definition sign_of (negative : bool) : string :=
  if negative then "-" else "".

Definition currency_symbol (l : Locale) (c : Currency) : string :=
  match l, c with
  | en_US, USD => "$"
  end.

(** The number part: grouped integer digits, and the fraction digits after
    a point when any remain. *)
Definition number_part (o : Options) (n : Z) : string :=
  let f := maximumFractionDigits o in
  let integer := decimal (n / pow10 f) in
  let fraction :=
    string_of_list_ascii
      (rev (cut_trailing_zeros (f - minimumFractionDigits o)
              (rev (list_ascii_of_string (fraction_digits f n))))) in
  match fraction with
  | EmptyString => group_min2 integer
  | _ => group_min2 integer ++ "." ++ fraction
  end.

(** Formatting a finite non-zero number of sign [negative] and magnitude
    [q]. *)
Definition format_finite (nf : NumberFormatObject) (negative : bool) (q : Q)
  : string :=
  let o := nf_options nf in
  let f := maximumFractionDigits o in
  let exponent := ComputeExponent q f in
  let n := ToRawFixed (q * exp10 (- exponent))%Q f in
  sign_of negative ++ currency_symbol (nf_locale nf) (currency o)
    ++ number_part o n ++ compact_symbol exponent.

(** [Intl.NumberFormat.prototype.format]. *)
Definition format (nf : NumberFormatObject) (x : float) : string :=
  let o := nf_options nf in
  let sym := currency_symbol (nf_locale nf) (currency o) in
  match Prim2SF x with
  | S754_nan => sym ++ "NaN"
  | S754_infinity negative => sign_of negative ++ sym ++ "∞"
  | S754_zero negative => sign_of negative ++ sym ++ number_part o 0
  | S754_finite negative m e =>
      let '(s, p) := shortest_decimal m e in
      format_finite nf negative (inject_Z s * exp10 p)%Q
  end.

End Intl.

(* ================================================================== *)
(** ** The value formatter (src/index.tsx, lines 93-107) *)

Import JS.

Definition currency_options : Intl.Options := {|
  Intl.style := Intl.StyleCurrency;
  Intl.currency := Intl.USD;
  Intl.minimumFractionDigits := 2;
  Intl.maximumFractionDigits := 2;
  Intl.notation := Intl.NotationCompact
|}.

Definition formatValue (value : Value) (metric : string) : Completion Value :=
  if negb (typeof value =? "number")%string then Normal value
  else
    match value with
    | VNum x =>
        if String_includes metric "ROIC" || String_includes metric "Margins"
        then
          bind (Number_toFixed (x * 100)%float 1)
               (fun s => Normal (VStr (s ++ "%")))
        else
          bind (Intl.NumberFormat Intl.en_US currency_options)
               (fun nf => Normal (VStr (Intl.format nf x)))
    | _ => Normal value
    end.

(* ================================================================== *)
(** ** The metric table and the series projector (lines 35-91) *)

(** One row of the table, the object literal
    [{ metric: m, k1: v1, ..., kn: vn }]: a label and a number per period
    label, in the order written. *)
Record MetricRecord : Type := {
  metric : string;
  periods : list (string * float)
}.

(** The own properties the literal creates.  A [__proto__: v] entry with a
    number [v] defines no property. *)
Definition own_properties (r : MetricRecord) : Properties :=
  ("metric", VStr (metric r))
  :: map (fun kv => (fst kv, VNum (snd kv)))
       (filter (fun kv => negb (fst kv =? "__proto__")%string) (periods r)).

(** [Object.keys(o)], where [o] may be undefined. *)
Definition Object_keys (o : option MetricRecord) : Completion (list string) :=
  match o with
  | None => Throw TypeError
  | Some r => Normal (OwnPropertyKeys (own_properties r))
  end.

(** [o[key]], where [o] may be undefined. *)
Definition GetV (o : option MetricRecord) (key : string) : Completion Value :=
  match o with
  | None => Throw TypeError
  | Some r => Normal (Get (own_properties r) key)
  end.

(** [v * 100] for the value a metric record yields under a period label: a
    number is multiplied; undefined and the members inherited from
    Object.prototype convert to NaN. *)
Definition times_100 (v : Value) : float :=
  match v with
  | VNum x => (x * 100)%float
  | _ => nan
  end.

(** One element of the chart's data. *)
Record SeriesPoint : Type := {
  year : string;
  revenue : Value;
  nopbt : Value;
  roic : float
}.

Local Open Scope js_scope.

Definition chartData (data : list MetricRecord)
  : Completion (list SeriesPoint) :=
  keys <- Object_keys (Array_get data 0) ;;
  mapM (fun year =>
          revenue <- GetV (Array_get data 0) year ;;
          nopbt <- GetV (Array_get data 1) year ;;
          third <- GetV (Array_get data 2) year ;;
          Normal {| year := year;
                    revenue := revenue;
                    nopbt := nopbt;
                    roic := times_100 third |})
       (filter (fun key => negb (key =? "metric")%string) keys).

(** The table of the source. *)
Definition data : list MetricRecord :=
  [ {| metric := "Revenue (DEFAULT)";
       periods :=
         [ ("2017", 1169.09); ("2018", 1378.01); ("2019", 1268.31);
           ("2020", 782.74); ("2021", 1059.22); ("2022", 1738.74);
           ("2023", 1676.62); ("2024", 1687.33); ("2025", 1659.86);
           ("2026", 1649.90); ("2027", 1717.55); ("2028", 1786.25) ]%float |};
    {| metric := "NOPBT (DEFAULT)";
       periods :=
         [ ("2017", 436.27); ("2018", 496.75); ("2019", 394.49);
           ("2020", -26.74); ("2021", 299.02); ("2022", 837.02);
           ("2023", 549.70); ("2024", 462.13); ("2025", 615.81);
           ("2026", 612.11); ("2027", 637.21); ("2028", 662.70) ]%float |};
    {| metric := "ROIC (DEFAULT)";
       periods :=
         [ ("2017", 0.5420); ("2018", 0.6380); ("2019", 0.3690);
           ("2020", -0.0210); ("2021", 0.2510); ("2022", 0.6120);
           ("2023", 0.3460); ("2024", 0.2570); ("2025", 0.3390);
           ("2026", 0.3370); ("2027", 0.3460); ("2028", 0.3550) ]%float |} ].

(* ================================================================== *)
(** ** The table cell (lines 134-141) *)

(** What a cell renders: the class of its [div] and its text. *)
Record Cell : Type := {
  className : string;
  children : Value
}.

Definition cell (value : float) (metric : string) : Completion Cell :=
  text <- formatValue (VNum value) metric ;;
  Normal {| className := if (value <? 0)%float then "text-red-500" else "";
            children := text |}.

(* ================================================================== *)
(** ** The chart image export (lines 165-179) *)

Module ChartExport.

(** What the action does to the outside: a file offered for download, a
    line on the error console. *)
Inductive Event : Type :=
| Download (filename href : string)
| ConsoleError (message : string) (err : Error).

(** The collaborators: the rasteriser and the document.  Each call may
    complete abruptly (a rejected promise, awaited, is a throw). *)
Record Host : Type := {
  toPng : nat -> float -> Completion string;
  createElement : string -> Completion nat;
  click : nat -> Completion unit
}.

(** A computation that appends to the trace of events and completes
    normally or abruptly. *)
Definition Action (A : Type) : Type := list Event -> list Event * Completion A.

Definition ret {A : Type} (a : A) : Action A := fun tr => (tr, Normal a).

Definition lift {A : Type} (c : Completion A) : Action A := fun tr => (tr, c).

Definition emit (ev : Event) : Action unit :=
  fun tr => ((tr ++ [ev])%list, Normal tt).

Definition seq {A B : Type} (a : Action A) (k : A -> Action B) : Action B :=
  fun tr =>
    match a tr with
    | (tr', Normal x) => k x tr'
    | (tr', Throw e) => (tr', Throw e)
    end.

(** [try { body } catch (err) { handler }]. *)
Definition try_catch {A : Type} (body : Action A) (handler : Error -> Action A)
  : Action A :=
  fun tr =>
    match body tr with
    | (tr', Normal x) => (tr', Normal x)
    | (tr', Throw e) => handler e tr'
    end.

(** The action, given the current value of [chartRef.current]. *)
Definition exportChartToImage (h : Host) (current : option nat) : Action unit :=
  match current with
  | None => ret tt
  | Some node =>
      try_catch
        (seq (lift (toPng h node 0.95%float)) (fun dataUrl =>
         seq (lift (createElement h "a")) (fun link =>
         seq (lift (click h link)) (fun _ =>
         emit (Download "financial_performance_trends.png" dataUrl)))))
        (fun err => emit (ConsoleError "Error exporting chart to image:" err))
  end.

End ChartExport.

(* ================================================================== *)
(** ** Vocabulary of the statements *)

(** [t] occurs in [s] as a substring. *)
Definition contains (s t : string) : Prop :=
  exists pre post, s = pre ++ t ++ post.

(** [Number.isFinite]. *)
Definition Number_isFinite (x : float) : bool :=
  match Prim2SF x with
  | S754_zero _ | S754_finite _ _ _ => true
  | S754_infinity _ | S754_nan => false
  end.

(** A number below zero: negative infinity or a finite non-zero number of
    negative sign (neither NaN nor minus zero). *)
Definition is_negative (x : float) : bool :=
  match Prim2SF x with
  | S754_infinity negative | S754_finite negative _ _ => negative
  | S754_zero _ | S754_nan => false
  end.

(** The period keys of a record, as the record enumerates them: its own
    keys but for the label. *)
Definition period_keys (r : MetricRecord) : list string :=
  filter (fun key => negb (key =? "metric")%string)
         (OwnPropertyKeys (own_properties r)).

(** The number a record holds for a period label: the last entry written
    under it. *)
Fixpoint raw_value (entries : list (string * float)) (period : string)
  : option float :=
  match entries with
  | [] => None
  | (k, v) :: rest =>
      match raw_value rest period with
      | Some v' => Some v'
      | None => if (k =? period)%string then Some v else None
      end
  end.

(** Labels that are array indices in strictly ascending order, all above
    [lo]. *)
Fixpoint ascending_from (lo : Z) (keys : list string) : Prop :=
  match keys with
  | [] => True
  | k :: rest =>
      exists n, array_index k = Some n /\ lo < n /\ ascending_from n rest
  end.

(** The formatter the source builds for currency amounts. *)
Definition currency_format : Intl.NumberFormatObject :=
  {| Intl.nf_locale := Intl.en_US; Intl.nf_options := currency_options |}.

(** A decimal digit. *)
Definition is_digit (c : ascii) : bool :=
  let n := nat_of_ascii c in ((48 <=? n) && (n <=? 57))%nat.

(** A run of digits. *)
Definition all_digits (s : string) : Prop :=
  Forall (fun c => is_digit c = true) (list_ascii_of_string s).

(** A non-empty run of digits, possibly separated by commas. *)
Definition grouped_digits (s : string) : Prop :=
  s <> "" /\
  Forall (fun c => is_digit c = true \/ c = ","%char) (list_ascii_of_string s).

(** The magnitude suffixes of compact notation, none included. *)
Definition magnitude_suffixes : list string := [""; "K"; "M"; "B"; "T"].

(** A US-dollar compact currency string with two decimal places: an
    optional minus sign, the dollar sign, integer digits, a point, exactly
    two digits, and a magnitude suffix. *)
Inductive compact_usd_string : string -> Prop :=
| compact_usd_intro (negative : bool) (integer : string) (d1 d2 : ascii)
                    (suffix : string) :
    grouped_digits integer ->
    is_digit d1 = true ->
    is_digit d2 = true ->
    In suffix magnitude_suffixes ->
    compact_usd_string
      (Intl.sign_of negative ++ "$" ++ integer ++ "."
       ++ String d1 (String d2 suffix)).

(** A percentage with one decimal place: an optional minus sign, integer
    digits, a point, one digit and the percent sign. *)
Inductive percentage_string : string -> Prop :=
| percentage_intro (negative : bool) (integer : string) (d : ascii) :
    integer <> "" ->
    all_digits integer ->
    is_digit d = true ->
    percentage_string
      ((if negative then "-" else "") ++ integer ++ "." ++ String d "%").

(** A number that is finite and below 10^21 in magnitude, zero included:
    the numbers [toFixed] writes in fixed notation. *)
Definition below_1e21 (x : float) : Prop :=
  match Prim2SF x with
  | S754_zero _ => True
  | S754_finite _ m e => (Q_of_finite m e < inject_Z (10 ^ 21))%Q
  | S754_infinity _ | S754_nan => False
  end.

(** The suffix one factor of a thousand up. *)
Definition next_suffix (suffix : string) : string :=
  if (suffix =? "")%string then "K"
  else if (suffix =? "K")%string then "M"
  else if (suffix =? "M")%string then "B"
  else "T".

(** The sign and the decimal magnitude a finite number is read with: the
    digits it prints with, as a rational. *)
Definition decimal_reading (x : float) : option (bool * Q) :=
  match Prim2SF x with
  | S754_zero negative => Some (negative, 0%Q)
  | S754_finite negative m e =>
      let '(s, p) := shortest_decimal m e in
      Some (negative, (inject_Z s * exp10 p)%Q)
  | S754_infinity _ | S754_nan => None
  end.

(** What the collaborators answer when the export runs on a mounted
    surface: the data URL once the image is encoded, the link created and
    clicked, or the first failure among these calls. *)
Definition export_attempt (h : ChartExport.Host) (node : nat)
  : Completion string :=
  (dataUrl <- ChartExport.toPng h node 0.95%float ;;
   link <- ChartExport.createElement h "a" ;;
   _ <- ChartExport.click h link ;;
   Normal dataUrl)%js.

(* ================================================================== *)
(** ** The table's columns (lines 114-143) *)

(** [years]: the keys of the first row but for the label (line 114). *)
Definition years (data : list MetricRecord) : Completion (list string) :=
  keys <- Object_keys (Array_get data 0) ;;
  Normal (filter (fun key => negb (key =? "metric")%string) keys).

(** What a column's header shows: a text, or the button that sorts by the
    column. *)
Inductive Header : Type :=
| HeaderText (text : string)
| HeaderSortButton (label : string).

(** A column definition; [formatted] tells whether the column has the cell
    renderer of lines 134-141. *)
Record ColumnDef : Type := {
  accessorKey : string;
  header : Header;
  formatted : bool
}.

Definition columns (data : list MetricRecord) : Completion (list ColumnDef) :=
  ys <- years data ;;
  Normal ({| accessorKey := "metric";
             header := HeaderText "Metric";
             formatted := false |}
          :: map (fun year => {| accessorKey := year;
                                 header := HeaderSortButton year;
                                 formatted := true |})
                 ys).

(* ================================================================== *)
(** ** Sorting by a header (line 127) *)

Module Sorting.

(** One entry of the sorting state: a column and its direction. *)
Record ColumnSort : Type := {
  id : string;
  desc : bool
}.

Definition SortingState : Type := list ColumnSort.

(** What [column.getIsSorted()] answers: false, 'asc' or 'desc'. *)
Inductive SortDirection : Type :=
| Unsorted
| Asc
| Desc.

Definition is_asc (d : SortDirection) : bool :=
  match d with
  | Asc => true
  | _ => false
  end.

Definition getIsSorted (column : string) (sorting : SortingState)
  : SortDirection :=
  match find (fun d => (id d =? column)%string) sorting with
  | None => Unsorted
  | Some d => if desc d then Desc else Asc
  end.

(** [Array.prototype.findIndex]: the position of the first match, or -1. *)
Fixpoint findIndex (column : string) (sorting : SortingState) : Z :=
  match sorting with
  | [] => -1
  | d :: rest =>
      if (id d =? column)%string then 0
      else
        let i := findIndex column rest in
        if i <? 0 then -1 else i + 1
  end.

(** [column.toggleSorting(desc)] of @tanstack/react-table, called with an
    explicit direction and without the multi-sort flag, as the state
    updater it hands to [setSorting]: the column replaces the sorting
    unless it is its last entry, whose direction is then set. *)
Definition toggleSorting (column : string) (direction : bool)
           (old : SortingState) : SortingState :=
  let existingIndex := findIndex column old in
  let replaced := [ {| id := column; desc := direction |} ] in
  match old with
  | [] => replaced
  | _ :: _ =>
      if negb (existingIndex =? Z.of_nat (List.length old) - 1) then replaced
      else
        match find (fun d => (id d =? column)%string) old with
        | Some _ =>
            map (fun d => if (id d =? column)%string
                          then {| id := id d; desc := direction |}
                          else d)
                old
        | None => replaced
        end
  end.

(** The header button's [onClick]. *)
Definition header_click (column : string) (sorting : SortingState)
  : SortingState :=
  toggleSorting column (is_asc (getIsSorted column sorting)) sorting.

End Sorting.

(* ================================================================== *)
(** ** The spreadsheet export (lines 158-163) *)

Module Spreadsheet.

(** What the export does to the outside: a sheet added to a workbook, a
    workbook written to a file. *)
Inductive Event : Type :=
| SheetAppended (workbook sheet : nat) (name : string)
| FileWritten (workbook : nat) (filename : string).

(** The spreadsheet library; sheets and workbooks are held by reference. *)
Record Host : Type := {
  json_to_sheet : list MetricRecord -> Completion nat;
  book_new : Completion nat;
  book_append_sheet : nat -> nat -> string -> Completion unit;
  writeFile : nat -> string -> Completion unit
}.

Definition Action (A : Type) : Type := list Event -> list Event * Completion A.

Definition lift {A : Type} (c : Completion A) : Action A := fun tr => (tr, c).

Definition emit (ev : Event) : Action unit :=
  fun tr => ((tr ++ [ev])%list, Normal tt).

Definition seq {A B : Type} (a : Action A) (k : A -> Action B) : Action B :=
  fun tr =>
    match a tr with
    | (tr', Normal x) => k x tr'
    | (tr', Throw e) => (tr', Throw e)
    end.

Definition exportToExcel (h : Host) (data : list MetricRecord) : Action unit :=
  seq (lift (json_to_sheet h data)) (fun ws =>
  seq (lift (book_new h)) (fun wb =>
  seq (lift (book_append_sheet h wb ws "HCC Financial Data")) (fun _ =>
  seq (emit (SheetAppended wb ws "HCC Financial Data")) (fun _ =>
  seq (lift (writeFile h wb "HCC_financial_data.xlsx")) (fun _ =>
  emit (FileWritten wb "HCC_financial_data.xlsx")))))).

End Spreadsheet.

(* ================================================================== *)
(** ** Further vocabulary *)

(** [s] ends with [t]. *)
Definition ends_with (s t : string) : Prop := exists pre, s = pre ++ t.

(** The last character of a string. *)
Fixpoint last_char (s : string) : option ascii :=
  match s with
  | EmptyString => None
  | String c rest =>
      match last_char rest with
      | Some c' => Some c'
      | None => Some c
      end
  end.

(** A number of positive sign: plus zero, a positive finite number or
    plus infinity. *)
Definition has_positive_sign (x : float) : bool :=
  match Prim2SF x with
  | S754_zero negative | S754_infinity negative | S754_finite negative _ _ =>
      negb negative
  | S754_nan => false
  end.

(** A number above zero. *)
Definition is_positive (x : float) : bool :=
  match Prim2SF x with
  | S754_infinity negative | S754_finite negative _ _ => negb negative
  | S754_zero _ | S754_nan => false
  end.

(** The state of the sorting after a run of header clicks, from the
    initial empty state. *)
Definition after_clicks (clicked : list string) : Sorting.SortingState :=
  fold_left (fun sorting column => Sorting.header_click column sorting)
            clicked [].

(** The outcome of the four calls of the spreadsheet export: the first
    failure among them, in the order of the source. *)
Definition spreadsheet_attempt (h : Spreadsheet.Host)
           (data : list MetricRecord) : Completion (nat * nat) :=
  (ws <- Spreadsheet.json_to_sheet h data ;;
   wb <- Spreadsheet.book_new h ;;
   _ <- Spreadsheet.book_append_sheet h wb ws "HCC Financial Data" ;;
   _ <- Spreadsheet.writeFile h wb "HCC_financial_data.xlsx" ;;
   Normal (wb, ws))%js.

(* ================================================================== *)
(** ** Substring search *)

Lemma prefix_true_iff (t s : string) :
  String.prefix t s = true <-> exists post, s = t ++ post.
Proof.
  revert s; induction t as [|c t IH]; intros [|c' s']; simpl.
  - split; [intros _; now exists "" | reflexivity].
  - split; [intros _; now exists (String c' s') | reflexivity].
  - split; [discriminate | intros [post H]; discriminate].
  - destruct (Ascii.ascii_dec c c') as [->|Hne].
    + rewrite IH. split; intros [post H]; exists post.
      * now rewrite H.
      * now injection H.
    + split; [discriminate|].
      intros [post H]. injection H as H1 _. congruence.
Qed.

Lemma String_includes_unfold (s t : string) :
  String_includes s t =
  String.prefix t s ||
  match s with
  | EmptyString => false
  | String _ rest => String_includes rest t
  end.
Proof. destruct s; reflexivity. Qed.

Lemma String_includes_spec (s t : string) :
  String_includes s t = true <-> contains s t.
Proof.
  unfold contains. split.
  - induction s as [|c s IH]; rewrite String_includes_unfold;
      intros H; apply orb_true_iff in H as [H|H].
    + apply prefix_true_iff in H as [post H]. now exists "", post.
    + discriminate.
    + apply prefix_true_iff in H as [post H]. now exists "", post.
    + destruct (IH H) as (pre & post & ->).
      now exists (String c pre), post.
  - intros (pre & post & ->).
    induction pre as [|c pre IH]; rewrite String_includes_unfold.
    + apply orb_true_iff. left. apply prefix_true_iff. now exists post.
    + apply orb_true_iff. right. exact IH.
Qed.

Lemma String_includes_false (s t : string) :
  String_includes s t = false <-> ~ contains s t.
Proof.
  rewrite <- String_includes_spec.
  destruct (String_includes s t); split; congruence.
Qed.

(* ================================================================== *)
(** ** Digits *)

Lemma digit_char_is_digit (z : Z) : is_digit (digit_char (z mod 10)) = true.
Proof.
  assert (H : 0 <= z mod 10 < 10) by (apply Z.mod_pos_bound; lia).
  set (r := z mod 10) in *. clearbody r.
  assert (E : r = 0 \/ r = 1 \/ r = 2 \/ r = 3 \/ r = 4 \/ r = 5 \/ r = 6
              \/ r = 7 \/ r = 8 \/ r = 9) by lia.
  repeat (destruct E as [->|E]; [reflexivity|]). now subst.
Qed.

Lemma decimal_aux_digits (fuel : nat) (n : Z) (acc : string) :
  all_digits acc -> all_digits (decimal_aux fuel n acc).
Proof.
  revert n acc; induction fuel as [|fuel IH]; intros n acc Hacc; simpl.
  - exact Hacc.
  - assert (H : all_digits (String (digit_char (n mod 10)) acc))
      by (constructor; [apply digit_char_is_digit | exact Hacc]).
    destruct (n <? 10); [exact H | now apply IH].
Qed.

Lemma decimal_aux_nonempty (fuel : nat) (n : Z) (acc : string) :
  acc <> "" -> decimal_aux fuel n acc <> "".
Proof.
  revert n acc; induction fuel as [|fuel IH]; intros n acc Hacc; simpl.
  - exact Hacc.
  - destruct (n <? 10); [discriminate | apply IH; discriminate].
Qed.

Lemma decimal_digits (n : Z) : all_digits (decimal n).
Proof. apply decimal_aux_digits. constructor. Qed.

Lemma decimal_nonempty (n : Z) : decimal n <> "".
Proof.
  unfold decimal. simpl. destruct (n <? 10); [discriminate|].
  apply decimal_aux_nonempty. discriminate.
Qed.

Lemma group_from_grouped (lead : nat) (s : string) :
  all_digits s ->
  Forall (fun c => is_digit c = true \/ c = ","%char)
         (list_ascii_of_string (Intl.group_from lead s)).
Proof.
  revert lead; induction s as [|c s IH]; intros lead H; simpl.
  - constructor.
  - inversion H as [|c' l Hc Hs]; subst.
    destruct lead as [|lead]; simpl.
    + constructor; [now right|]. constructor; [now left | now apply IH].
    + constructor; [now left | now apply IH].
Qed.

Lemma group_min2_grouped (s : string) :
  all_digits s -> s <> "" -> grouped_digits (Intl.group_min2 s).
Proof.
  intros Hd Hne. unfold Intl.group_min2.
  destruct (5 <=? String.length s)%nat.
  - split.
    + destruct s as [|c s]; [congruence|].
      simpl. destruct (_ + 1)%nat; discriminate.
    + now apply group_from_grouped.
  - split; [exact Hne|].
    eapply Forall_impl; [|exact Hd]. intros c Hc. now left.
Qed.

Lemma compact_symbol_suffix (e : Z) :
  In (Intl.compact_symbol e) magnitude_suffixes.
Proof.
  unfold Intl.compact_symbol, magnitude_suffixes.
  repeat (destruct (e =? _); [simpl; tauto|]). simpl; tauto.
Qed.

Lemma append_assoc (a b c : string) : (a ++ b) ++ c = a ++ b ++ c.
Proof. induction a as [|x a IH]; simpl; [reflexivity | now rewrite IH]. Qed.

(* ================================================================== *)
(** ** Rounding and toFixed *)

Lemma Qfloor_below (q : Q) (z : Z) : (q < inject_Z z)%Q -> Qfloor q < z.
Proof.
  intros H. rewrite Zlt_Qlt. eapply Qle_lt_trans; [apply Qfloor_le | exact H].
Qed.

Lemma Qfloor_above (q : Q) (z : Z) : (inject_Z z <= q)%Q -> z <= Qfloor q.
Proof.
  intros H. rewrite <- (Qfloor_Z z). now apply Qfloor_resp_le.
Qed.

Lemma decimal_aux_acc (fuel : nat) (n : Z) (acc : string) :
  decimal_aux fuel n acc = decimal_aux fuel n "" ++ acc.
Proof.
  revert n acc; induction fuel as [|fuel IH]; intros n acc; cbn [decimal_aux].
  - reflexivity.
  - destruct (n <? 10); [reflexivity|].
    rewrite IH, (IH _ (String _ "")), append_assoc. reflexivity.
Qed.

Lemma decimal_aux_more (fuel : nat) (n : Z) (acc : string) :
  (1 <= fuel)%nat -> 0 <= n < 2 ^ Z.of_nat fuel ->
  decimal_aux (S fuel) n acc = decimal_aux fuel n acc.
Proof.
  revert n acc; induction fuel as [|fuel IH]; intros n acc Hf Hn; [lia|].
  cbn [decimal_aux]. destruct (Z.ltb_spec n 10) as [|Hge]; [reflexivity|].
  rewrite Nat2Z.inj_succ, Z.pow_succ_r in Hn by lia.
  assert (Hdm := Z.div_mod n 10 ltac:(lia)).
  assert (Hm := Z.mod_pos_bound n 10 ltac:(lia)).
  destruct fuel as [|fuel]; [simpl in Hn; lia|].
  rewrite <- (IH (n / 10)); [reflexivity | lia | lia].
Qed.

Lemma decimal_aux_enough (k fuel : nat) (n : Z) (acc : string) :
  (1 <= fuel)%nat -> 0 <= n < 2 ^ Z.of_nat fuel ->
  decimal_aux (k + fuel) n acc = decimal_aux fuel n acc.
Proof.
  intros Hf Hn. induction k as [|k IH]; [reflexivity|].
  simpl plus. rewrite decimal_aux_more; [exact IH | lia |].
  split; [lia|]. eapply Z.lt_le_trans; [apply Hn|].
  apply Z.pow_le_mono_r; lia.
Qed.

Lemma decimal_small (n : Z) :
  0 <= n < 10 -> decimal n = String (digit_char n) "".
Proof.
  intros H. unfold decimal. cbn [decimal_aux].
  destruct (Z.ltb_spec n 10); [|lia]. now rewrite Z.mod_small.
Qed.

Lemma decimal_step (n : Z) :
  10 <= n ->
  decimal n = decimal (n / 10) ++ String (digit_char (n mod 10)) "".
Proof.
  intros H. unfold decimal. cbn [decimal_aux].
  destruct (Z.ltb_spec n 10); [lia|].
  rewrite decimal_aux_acc. f_equal.
  assert (Hdm := Z.div_mod n 10 ltac:(lia)).
  assert (Hm := Z.mod_pos_bound n 10 ltac:(lia)).
  assert (Hq : 1 <= n / 10) by lia.
  assert (Hlog : Z.log2 (n / 10) + 3 <= Z.log2 n).
  { replace (Z.log2 (n / 10) + 3) with (3 + Z.log2 (n / 10)) by lia.
    rewrite <- (Z.log2_mul_pow2 (n / 10) 3) by lia.
    apply Z.log2_le_mono. change (2 ^ 3) with 8. lia. }
  assert (Hl0 := Z.log2_nonneg (n / 10)).
  replace (Z.to_nat (Z.log2 n))
    with ((Z.to_nat (Z.log2 n) - S (Z.to_nat (Z.log2 (n / 10))))
          + S (Z.to_nat (Z.log2 (n / 10))))%nat by lia.
  apply decimal_aux_enough; [lia|].
  split; [lia|].
  rewrite Nat2Z.inj_succ, Z2Nat.id by lia.
  apply Z.log2_spec. lia.
Qed.

Lemma length_append (a b : string) :
  String.length (a ++ b) = (String.length a + String.length b)%nat.
Proof. induction a as [|c a IH]; simpl; [reflexivity | now rewrite IH]. Qed.

Lemma substring_append_left (a b : string) :
  substring 0 (String.length a) (a ++ b) = a.
Proof.
  induction a as [|c a IH]; simpl.
  - destruct b; reflexivity.
  - now rewrite IH.
Qed.

Lemma substring_append_right (a b : string) :
  substring (String.length a) (String.length b) (a ++ b) = b.
Proof.
  induction a as [|c a IH]; simpl; [|exact IH].
  induction b as [|c b IH]; simpl; [reflexivity | now rewrite IH].
Qed.

Lemma fixed_digits_one (n : Z) :
  0 <= n ->
  fixed_digits n 1 =
  decimal (n / 10) ++ "." ++ String (digit_char (n mod 10)) "".
Proof.
  intros Hn. unfold fixed_digits.
  destruct (Z.ltb_spec n 10) as [Hlt|Hge].
  - rewrite decimal_small by lia.
    rewrite Z.div_small, Z.mod_small by lia. reflexivity.
  - rewrite decimal_step by lia.
    set (a := decimal (n / 10)). set (d := String (digit_char (n mod 10)) "").
    assert (Ha : (1 <= String.length a)%nat).
    { assert (H := decimal_nonempty (n / 10)). fold a in H.
      destruct a; [congruence | simpl; lia]. }
    rewrite length_append. change (String.length d) with 1%nat.
    destruct (Nat.leb_spec (String.length a + 1) 1); [lia|].
    rewrite length_append. change (String.length d) with 1%nat.
    replace (String.length a + 1 - 1)%nat with (String.length a) by lia.
    rewrite substring_append_left.
    change 1%nat with (String.length d) at 1.
    now rewrite substring_append_right.
Qed.

(** Between a rational and its rounding: at most a half apart, the tie
    going up. *)
Lemma round_half_up_nearest (q : Q) :
  (inject_Z (round_half_up q) - (1 # 2) <= q)%Q /\
  (q < inject_Z (round_half_up q) + (1 # 2))%Q.
Proof.
  unfold round_half_up.
  assert (H1 := Qfloor_le (q + (1 # 2))).
  assert (H2 := Qlt_floor (q + (1 # 2))).
  rewrite inject_Z_plus in H2. change (inject_Z 1) with 1%Q in H2.
  split; lra.
Qed.

Lemma Q_of_finite_pos (m : positive) (e : Z) : (0 < Q_of_finite m e)%Q.
Proof.
  unfold Q_of_finite. destruct e as [|p|p].
  - reflexivity.
  - change 0%Q with (inject_Z 0). rewrite <- Zlt_Qlt.
    apply Z.mul_pos_pos; [lia|]. apply Z.pow_pos_nonneg; lia.
  - reflexivity.
Qed.

(** [toFixed(1)] on a finite number below 10^21: the sign, then the tenths
    nearest to the magnitude written with one digit after the point. *)
Lemma Number_toFixed_one_decimal (x : float) (negative : bool)
      (m : positive) (e : Z) :
  Prim2SF x = S754_finite negative m e ->
  (Q_of_finite m e < inject_Z (10 ^ 21))%Q ->
  exists n,
    0 <= n /\
    (inject_Z n - (1 # 2) <= Q_of_finite m e * inject_Z 10)%Q /\
    (Q_of_finite m e * inject_Z 10 < inject_Z n + (1 # 2))%Q /\
    Number_toFixed x 1 =
    Normal ((if negative then "-" else "") ++ decimal (n / 10) ++ "."
            ++ String (digit_char (n mod 10)) "").
Proof.
  intros Hx Hlt.
  exists (round_half_up (Q_of_finite m e * inject_Z 10)).
  destruct (round_half_up_nearest (Q_of_finite m e * inject_Z 10)) as [A B].
  assert (Hpos := Q_of_finite_pos m e).
  assert (Hn : 0 <= round_half_up (Q_of_finite m e * inject_Z 10)).
  { apply Qfloor_above. change (inject_Z 0) with 0%Q.
    change (inject_Z 10) with (10 # 1)%Q. lra. }
  split; [exact Hn|]. split; [exact A|]. split; [exact B|].
  unfold Number_toFixed. rewrite Hx. simpl orb. cbv iota.
  destruct (Qle_bool (inject_Z (10 ^ 21)) (Q_of_finite m e)) eqn:Hle.
  - apply Qle_bool_iff in Hle. exfalso. apply (Qlt_irrefl (Q_of_finite m e)).
    eapply Qlt_le_trans; eassumption.
  - change (Z.to_nat 1) with 1%nat. change (pow10 1) with 10.
    now rewrite fixed_digits_one.
Qed.

(* ================================================================== *)
(** ** The formatter's branches *)

Lemma typeof_number (v : Value) :
  typeof v = "number" <-> exists x, v = VNum x.
Proof.
  split.
  - destruct v as [| |b|x|s|id|z|ref callable]; simpl; try discriminate.
    + intros _. now exists x.
    + destruct callable; discriminate.
  - now intros [x ->].
Qed.

Lemma Number_toFixed_normal (x : float) (f : Z) :
  0 <= f <= 100 -> exists s, Number_toFixed x f = Normal s.
Proof.
  intros Hf. unfold Number_toFixed.
  replace ((f <? 0) || (100 <? f)) with false
    by (symmetry; apply orb_false_iff; split; apply Z.ltb_ge; lia).
  destruct (Prim2SF x) as [s|[|]| |s m e]; eauto.
  destruct (Qle_bool _ _); eauto.
Qed.

Lemma formatValue_passthrough (value : Value) (metric : string) :
  typeof value <> "number" -> formatValue value metric = Normal value.
Proof.
  intros H. unfold formatValue.
  destruct (String.eqb_spec (typeof value) "number") as [E|E]; [easy|].
  reflexivity.
Qed.

Lemma formatValue_percentage (x : float) (metric : string) :
  String_includes metric "ROIC" || String_includes metric "Margins" = true ->
  formatValue (VNum x) metric =
  bind (Number_toFixed (x * 100)%float 1) (fun s => Normal (VStr (s ++ "%"))).
Proof. intros H. unfold formatValue. simpl. now rewrite H. Qed.

Lemma formatValue_currency (x : float) (metric : string) :
  String_includes metric "ROIC" || String_includes metric "Margins" = false ->
  formatValue (VNum x) metric =
  Normal (VStr (Intl.format currency_format x)).
Proof. intros H. unfold formatValue. simpl. now rewrite H. Qed.

Lemma includes_percentage_names (metric : string) :
  String_includes metric "ROIC" || String_includes metric "Margins" = true <->
  contains metric "ROIC" \/ contains metric "Margins".
Proof.
  rewrite orb_true_iff. now rewrite !String_includes_spec.
Qed.

Lemma formatValue_percentage_digits (metric : string) (x : float) :
  String_includes metric "ROIC" || String_includes metric "Margins" = true ->
  exists digits,
    Number_toFixed (x * 100)%float 1 = Normal digits /\
    formatValue (VNum x) metric = Normal (VStr (digits ++ "%")).
Proof.
  intros H.
  destruct (Number_toFixed_normal (x * 100)%float 1) as [digits Hd]; [lia|].
  exists digits. split; [exact Hd|].
  rewrite (formatValue_percentage _ _ H), Hd. reflexivity.
Qed.

Lemma formatValue_number_string (x : float) (metric : string) :
  exists s, formatValue (VNum x) metric = Normal (VStr s).
Proof.
  destruct (String_includes metric "ROIC" || String_includes metric "Margins")
    eqn:Hb.
  - destruct (formatValue_percentage_digits metric x Hb) as (d & _ & ->).
    eauto.
  - rewrite (formatValue_currency _ _ Hb). eauto.
Qed.

Lemma list_ascii_of_string_append (a b : string) :
  list_ascii_of_string (a ++ b)
  = (list_ascii_of_string a ++ list_ascii_of_string b)%list.
Proof. induction a as [|c a IH]; simpl; [reflexivity | now rewrite IH]. Qed.

(** The characters of a one-decimal percentage. *)
Lemma percentage_string_chars (s : string) (c : ascii) :
  percentage_string s ->
  In c (list_ascii_of_string s) ->
  is_digit c = true \/ c = "-"%char \/ c = "."%char \/ c = "%"%char.
Proof.
  intros [negative integer d _ Hi Hd].
  rewrite !list_ascii_of_string_append. rewrite !in_app_iff.
  intros [Hc|[Hc|[Hc|Hc]]].
  - destruct negative; simpl in Hc; [|easy].
    destruct Hc as [<-|[]]. auto.
  - left. unfold all_digits in Hi. rewrite Forall_forall in Hi. auto.
  - simpl in Hc. destruct Hc as [<-|[]]. auto.
  - simpl in Hc. destruct Hc as [<-|[<-|[]]]; auto.
Qed.

Lemma not_percentage_with (s : string) (c : ascii) :
  In c (list_ascii_of_string s) ->
  is_digit c = false ->
  c <> "-"%char -> c <> "."%char -> c <> "%"%char ->
  ~ percentage_string s.
Proof.
  intros Hin Hd H1 H2 H3 Hs.
  destruct (percentage_string_chars s c Hs Hin) as [E|[E|[E|E]]];
    congruence.
Qed.

(** Exponent notation is no one-decimal percentage. *)
Lemma exponent_not_percentage (a b : string) :
  ~ percentage_string (a ++ "e+" ++ b).
Proof.
  apply (not_percentage_with _ "e"%char); try discriminate; [|reflexivity].
  rewrite list_ascii_of_string_append. apply in_or_app. right. now left.
Qed.

(** [Number::toString] from 10^21 on: a digit, a point and further digits
    when there are any, and the exponent. *)
Lemma Number_toString_large_shape (m : positive) (e : Z) :
  exists (d : ascii) (rest expo : string),
    is_digit d = true /\ all_digits rest /\
    all_digits expo /\ expo <> "" /\
    Number_toString_large m e
    = String d (match rest with
                | EmptyString => ""
                | String _ _ => "." ++ rest
                end ++ "e+" ++ expo).
Proof.
  unfold Number_toString_large.
  destruct (shortest_decimal m e) as [s p].
  assert (Hd := decimal_digits s). assert (Hn := decimal_nonempty s).
  destruct (decimal s) as [|d rest] eqn:E; [congruence|].
  unfold all_digits in Hd. cbn [list_ascii_of_string] in Hd.
  inversion Hd as [|x l Hx Hl]; subst.
  set (expo := decimal (Z.of_nat (String.length (String d rest)) + p - 1)).
  exists d, rest, expo.
  repeat split; try assumption;
    [apply decimal_digits | apply decimal_nonempty |].
  destruct rest as [|c rest]; [reflexivity|].
  now rewrite append_assoc.
Qed.

(** C1, amended. For a metric name containing "ROIC" or "Margins" and any
    number [v], the formatter returns a string ending in "%", decided by
    the product [v * 100].  When the product is finite and below 10^21 in
    magnitude the string is the percentage fixed to one decimal place: a
    minus sign for a negative product, the number of tenths nearest to its
    magnitude (a tie going away from zero) written with one digit after
    the point, "0.0" for a zero product.  Otherwise it is no such
    percentage: "NaN", "Infinity" or "-Infinity" for a product that is not
    finite, and exponent notation from 10^21 on. *)
Theorem formatValue_percentage_string (metric : string) (v : float) :
  contains metric "ROIC" \/ contains metric "Margins" ->
  exists digits,
    formatValue (VNum v) metric = Normal (VStr (digits ++ "%")) /\
    match Prim2SF (v * 100)%float with
    | S754_nan => digits = "NaN"
    | S754_infinity negative =>
        digits = (if negative then "-" else "") ++ "Infinity"
    | S754_zero _ => digits = "0.0"
    | S754_finite negative m e =>
        ((Q_of_finite m e < inject_Z (10 ^ 21))%Q ->
         exists n,
           0 <= n /\
           (inject_Z n - (1 # 2) <= Q_of_finite m e * inject_Z 10)%Q /\
           (Q_of_finite m e * inject_Z 10 < inject_Z n + (1 # 2))%Q /\
           digits = (if negative then "-" else "") ++ decimal (n / 10)
                    ++ "." ++ String (digit_char (n mod 10)) "") /\
        ((inject_Z (10 ^ 21) <= Q_of_finite m e)%Q ->
         exists (d : ascii) (rest expo : string),
           is_digit d = true /\ all_digits rest /\
           all_digits expo /\ expo <> "" /\
           digits = (if negative then "-" else "")
                    ++ String d (match rest with
                                 | EmptyString => ""
                                 | String _ _ => "." ++ rest
                                 end ++ "e+" ++ expo))
    end /\
    (percentage_string (digits ++ "%") <-> below_1e21 (v * 100)%float).
Proof.
  intros H.
  assert (Hb : String_includes metric "ROIC"
               || String_includes metric "Margins" = true).
  { apply orb_true_iff.
    destruct H as [H|H]; [left|right]; now apply String_includes_spec. }
  rewrite (formatValue_percentage _ _ Hb).
  unfold below_1e21.
  destruct (Prim2SF (v * 100)%float) as [s|s| |s m e] eqn:Hx.
  - exists "0.0". unfold Number_toFixed. rewrite Hx.
    repeat split; trivial.
    intros _. apply (percentage_intro false "0" "0"); try easy.
    repeat constructor.
  - exists ((if s then "-" else "") ++ "Infinity").
    unfold Number_toFixed. rewrite Hx.
    split; [now destruct s|]. split; [reflexivity|].
    split; [|easy].
    apply (not_percentage_with _ "I"%char); try discriminate;
      [|reflexivity].
    destruct s; simpl; auto.
  - exists "NaN". unfold Number_toFixed. rewrite Hx.
    repeat split; trivial; [|easy].
    apply (not_percentage_with _ "N"%char); try discriminate;
      [|reflexivity].
    simpl; auto.
  - destruct (Qlt_le_dec (Q_of_finite m e) (inject_Z (10 ^ 21)))
      as [Hlt|Hge].
    + destruct (Number_toFixed_one_decimal _ _ _ _ Hx Hlt)
        as (n & Hn & Hlo & Hhi & Ht).
      eexists. rewrite Ht. split; [reflexivity|]. split; [split|].
      * intros _. exists n. repeat split; assumption.
      * intros Hge. exfalso. apply (Qlt_irrefl (Q_of_finite m e)).
        eapply Qlt_le_trans; eassumption.
      * split; [intros _; exact Hlt|]. intros _.
        rewrite !append_assoc. cbn [append].
        apply percentage_intro;
          [apply decimal_nonempty | apply decimal_digits
          | apply digit_char_is_digit].
    + destruct (Number_toString_large_shape m e)
        as (d & rest & expo & Hd & Hr & He & Hne & Hs).
      exists ((if s then "-" else "") ++ Number_toString_large m e).
      split.
      { unfold Number_toFixed. rewrite Hx. simpl orb. cbv iota zeta.
        apply Qle_bool_iff in Hge. now rewrite Hge. }
      split; [split|].
      * intros Hlt. exfalso. apply (Qlt_irrefl (Q_of_finite m e)).
        eapply Qlt_le_trans; eassumption.
      * intros _. exists d, rest, expo. rewrite Hs.
        repeat split; assumption.
      * split.
        -- intros Hp. exfalso. revert Hp. rewrite Hs.
           replace (((if s then "-" else "")
                     ++ String d
                          (match rest with
                           | "" => ""
                           | String _ _ => "." ++ rest
                           end ++ "e+" ++ expo)) ++ "%")
             with (((if s then "-" else "")
                    ++ String d match rest with
                                | "" => ""
                                | String _ _ => "." ++ rest
                                end) ++ "e+" ++ (expo ++ "%")).
           ++ apply exponent_not_percentage.
           ++ rewrite !append_assoc. cbn [append].
              now rewrite !append_assoc.
        -- intros Hlt. exfalso. apply (Qlt_irrefl (Q_of_finite m e)).
           eapply Qlt_le_trans; eassumption.
Qed.

Lemma formatValue_percentage_string_witness :
  contains "ROIC (DEFAULT)" "ROIC" /\
  formatValue (VNum 0.5420%float) "ROIC (DEFAULT)" = Normal (VStr "54.2%") /\
  percentage_string "54.2%".
Proof.
  assert (H : contains "ROIC (DEFAULT)" "ROIC")
    by (exists "", " (DEFAULT)"; reflexivity).
  split; [exact H|].
  destruct (formatValue_percentage_string "ROIC (DEFAULT)" 0.5420%float
              (or_introl H)) as (digits & Hf & _ & Hp).
  assert (E : Normal (VStr (digits ++ "%")) = Normal (VStr "54.2%"))
    by (rewrite <- Hf; vm_compute; reflexivity).
  injection E as E.
  split; [rewrite Hf, E; reflexivity|].
  rewrite <- E. apply Hp. vm_compute. reflexivity.
Defined.

(** C1 as stated fails.  The finite number 10^19 has the product 10^21,
    which [toFixed] writes in exponent notation, and NaN is a number too:
    neither result is a number fixed to one decimal place. *)
Lemma formatValue_percentage_counterexamples :
  contains "ROIC (DEFAULT)" "ROIC" /\
  Number_isFinite 1e19%float = true /\
  formatValue (VNum 1e19%float) "ROIC (DEFAULT)" = Normal (VStr "1e+21%") /\
  ~ percentage_string "1e+21%" /\
  formatValue (VNum nan) "ROIC (DEFAULT)" = Normal (VStr "NaN%") /\
  ~ percentage_string "NaN%".
Proof.
  split; [exists "", " (DEFAULT)"; reflexivity|].
  split; [reflexivity|].
  split; [vm_compute; reflexivity|].
  split; [apply (exponent_not_percentage "1" "21%")|].
  split; [vm_compute; reflexivity|].
  apply (not_percentage_with _ "N"%char); try discriminate;
    [simpl; auto | reflexivity].
Qed.

(** C7. The formatter completes normally with a string on every number
    (finite or not), and hands any value that is not a number back as it
    is.  Being a function of its two arguments, it writes to nothing. *)
Theorem formatValue_never_throws_and_passes_through :
  (forall (v : float) (metric : string),
      exists s, formatValue (VNum v) metric = Normal (VStr s)) /\
  (forall (value : Value) (metric : string),
      typeof value <> "number" -> formatValue value metric = Normal value).
Proof.
  split.
  - exact formatValue_number_string.
  - exact formatValue_passthrough.
Qed.

(** C10. On every value of type number, NaN and the infinities among them,
    the formatter returns a string: the percentage branch when the name
    contains "ROIC" or "Margins", the currency branch otherwise.  It returns
    its argument unchanged exactly when the argument is not of type
    number. *)
Theorem formatValue_branch_by_runtime_type :
  (forall (value : Value) (metric : string),
      (typeof value = "number" ->
       exists x digits,
         value = VNum x /\
         Number_toFixed (x * 100)%float 1 = Normal digits /\
         (contains metric "ROIC" \/ contains metric "Margins" ->
          formatValue value metric = Normal (VStr (digits ++ "%"))) /\
         (~ (contains metric "ROIC" \/ contains metric "Margins") ->
          formatValue value metric =
          Normal (VStr (Intl.format currency_format x)))) /\
      (formatValue value metric = Normal value <-> typeof value <> "number")) /\
  formatValue (VNum nan) "ROIC (DEFAULT)" = Normal (VStr "NaN%") /\
  formatValue (VNum infinity) "Operating Margins" = Normal (VStr "Infinity%") /\
  formatValue (VNum neg_infinity) "ROIC" = Normal (VStr "-Infinity%") /\
  formatValue (VNum nan) "Revenue (DEFAULT)" = Normal (VStr "$NaN") /\
  formatValue (VNum infinity) "Revenue (DEFAULT)" = Normal (VStr "$∞") /\
  formatValue (VNum neg_infinity) "Revenue (DEFAULT)" = Normal (VStr "-$∞").
Proof.
  split; [|repeat split; vm_compute; reflexivity].
  intros value metric. split.
  - intros Ht. apply typeof_number in Ht as [x ->].
    destruct (Number_toFixed_normal (x * 100)%float 1) as [digits Hd]; [lia|].
    exists x, digits. split; [reflexivity|]. split; [exact Hd|]. split.
    + intros H.
      apply includes_percentage_names in H.
      destruct (formatValue_percentage_digits metric x H) as (d & Hd' & Hf).
      rewrite Hd in Hd'. injection Hd' as <-. exact Hf.
    + intros H. apply formatValue_currency. apply orb_false_iff.
      split; apply String_includes_false; tauto.
  - split.
    + intros Hf Ht. apply typeof_number in Ht as [x ->].
      destruct (formatValue_number_string x metric) as [s Hs].
      rewrite Hs in Hf. discriminate.
    + apply formatValue_passthrough.
Qed.

(* ================================================================== *)
(** ** Currency strings *)

(** With two fraction digits kept, the number part is the grouped integer
    digits, a point, and the last two digits of the rounded hundredths. *)
Lemma number_part_two_decimals (n : Z) :
  Intl.number_part currency_options n =
  Intl.group_min2 (decimal (n / 100)) ++ "."
  ++ String (digit_char (n / 10 mod 10)) (String (digit_char (n mod 10)) "").
Proof. reflexivity. Qed.

Lemma compact_usd_built (negative : bool) (n e : Z) :
  compact_usd_string
    (Intl.sign_of negative ++ "$" ++ Intl.number_part currency_options n
     ++ Intl.compact_symbol e).
Proof.
  rewrite number_part_two_decimals.
  rewrite !append_assoc. simpl.
  constructor.
  - apply group_min2_grouped; [apply decimal_digits | apply decimal_nonempty].
  - apply digit_char_is_digit.
  - apply digit_char_is_digit.
  - apply compact_symbol_suffix.
Qed.

(** Every finite number is formatted as a two-decimal US-dollar compact
    currency string. *)
Lemma format_finite_compact_usd (x : float) :
  Number_isFinite x = true ->
  compact_usd_string (Intl.format currency_format x).
Proof.
  unfold Number_isFinite, Intl.format.
  destruct (Prim2SF x) as [negative|negative| |negative m e];
    try discriminate; intros _.
  - apply (compact_usd_built negative 0 0).
  - destruct (shortest_decimal m e) as [s p].
    apply compact_usd_built.
Qed.

Lemma not_compact_usd_NaN : ~ compact_usd_string "$NaN".
Proof.
  intros H. remember "$NaN" as t eqn:E.
  destruct H as [negative integer d1 d2 suffix [Hne Hg] _ _ _].
  destruct negative; [discriminate|]. simpl in E.
  destruct integer as [|c integer]; [congruence|].
  injection E as E _. subst c.
  inversion Hg as [|c' l Hc _]. destruct Hc; discriminate.
Qed.

(* ================================================================== *)
(** ** Magnitudes *)

Lemma ndigits_aux_pos (fuel : nat) (n : Z) : (1 <= ndigits_aux fuel n)%nat.
Proof. destruct fuel; simpl; [lia|]. destruct (n <? 10); lia. Qed.

Lemma ndigits_aux_spec (fuel : nat) (n : Z) :
  1 <= n < 2 ^ (Z.of_nat fuel + 1) ->
  10 ^ (Z.of_nat (ndigits_aux fuel n) - 1) <= n
  < 10 ^ Z.of_nat (ndigits_aux fuel n).
Proof.
  revert n; induction fuel as [|fuel IH]; intros n Hn.
  - simpl in *. lia.
  - cbn [ndigits_aux]. destruct (Z.ltb_spec n 10) as [Hlt|Hge].
    + simpl. lia.
    + assert (Hdm := Z.div_mod n 10 ltac:(lia)).
      assert (Hm := Z.mod_pos_bound n 10 ltac:(lia)).
      assert (Hp : 2 ^ (Z.of_nat (S fuel) + 1) = 2 * 2 ^ (Z.of_nat fuel + 1)).
      { rewrite Nat2Z.inj_succ.
        replace (Z.succ (Z.of_nat fuel) + 1)
          with (Z.succ (Z.of_nat fuel + 1)) by lia.
        apply Z.pow_succ_r. lia. }
      assert (Hpos : 0 < 2 ^ (Z.of_nat fuel + 1))
        by (apply Z.pow_pos_nonneg; lia).
      destruct (IH (n / 10)) as [Hlo Hhi]; [lia|].
      assert (Hd := ndigits_aux_pos fuel (n / 10)).
      set (d := ndigits_aux fuel (n / 10)) in *.
      rewrite Nat2Z.inj_succ.
      replace (Z.succ (Z.of_nat d) - 1) with (Z.succ (Z.of_nat d - 1)) by lia.
      rewrite !Z.pow_succ_r by lia.
      replace (Z.of_nat d) with (Z.succ (Z.of_nat d - 1)) in Hhi by lia.
      replace (Z.of_nat d) with (Z.succ (Z.of_nat d - 1)) at 2 by lia.
      rewrite Z.pow_succ_r in * by lia.
      lia.
Qed.

Lemma ndigits_spec (n : Z) :
  1 <= n ->
  10 ^ (Z.of_nat (ndigits n) - 1) <= n < 10 ^ Z.of_nat (ndigits n).
Proof.
  intros Hn. apply ndigits_aux_spec. split; [exact Hn|].
  rewrite Z2Nat.id by apply Z.log2_nonneg.
  apply Z.log2_spec. lia.
Qed.

(** For a rational at least one, the magnitude is the non-negative [k]
    with [10^k <= q < 10^(k+1)]. *)
Lemma magnitude_bounds (q : Q) :
  (1 <= q)%Q ->
  0 <= magnitude q /\
  (inject_Z (10 ^ magnitude q) <= q)%Q /\
  (q < inject_Z (10 ^ (magnitude q + 1)))%Q.
Proof.
  destruct q as [a b]. unfold Qle, Qlt, magnitude. simpl. intros H.
  assert (Hba : Zpos b <= a) by lia.
  destruct (Z.leb_spec (Zpos b) a) as [_|]; [|lia].
  assert (H1 : 1 <= a / Zpos b) by (apply Z.div_le_lower_bound; lia).
  destruct (ndigits_spec _ H1) as [Hlo Hhi].
  assert (Hd := ndigits_aux_pos (Z.to_nat (Z.log2 (a / Zpos b))) (a / Zpos b)).
  fold (ndigits (a / Zpos b)) in Hd.
  set (d := ndigits (a / Zpos b)) in *.
  replace (Z.of_nat d - 1 + 1) with (Z.of_nat d) by lia.
  assert (Hdm := Z.div_mod a (Zpos b) ltac:(lia)).
  assert (Hm := Z.mod_pos_bound a (Zpos b) ltac:(lia)).
  split; [lia|]. split; nia.
Qed.

Lemma magnitude_unique (q : Q) (k : Z) :
  0 <= k ->
  (inject_Z (10 ^ k) <= q)%Q ->
  (q < inject_Z (10 ^ (k + 1)))%Q ->
  magnitude q = k.
Proof.
  intros Hk Hlo Hhi.
  assert (H1 : (1 <= q)%Q).
  { eapply Qle_trans; [|exact Hlo].
    change 1%Q with (inject_Z 1). rewrite <- Zle_Qle.
    assert (0 < 10 ^ k) by (apply Z.pow_pos_nonneg; lia). lia. }
  destruct (magnitude_bounds q H1) as (Hm & Hmlo & Hmhi).
  assert (A : 10 ^ magnitude q < 10 ^ (k + 1)).
  { rewrite Zlt_Qlt. eapply Qle_lt_trans; eassumption. }
  assert (B : 10 ^ k < 10 ^ (magnitude q + 1)).
  { rewrite Zlt_Qlt. eapply Qle_lt_trans; eassumption. }
  apply Z.pow_lt_mono_r_iff in A; [|lia|lia].
  apply Z.pow_lt_mono_r_iff in B; [|lia|lia].
  lia.
Qed.

(** A thousand times the number: three more in magnitude. *)
Lemma magnitude_thousand (q q' : Q) :
  (1 <= q)%Q -> (q' == 1000 * q)%Q -> magnitude q' = magnitude q + 3.
Proof.
  intros H1 Hq'.
  destruct (magnitude_bounds q H1) as (Hm & Hlo & Hhi).
  apply magnitude_unique; [lia| |].
  - rewrite Hq'. rewrite Z.pow_add_r by lia.
    rewrite Z.mul_comm, inject_Z_mult.
    apply Qmult_le_l; [reflexivity | exact Hlo].
  - rewrite Hq'.
    replace (magnitude q + 3 + 1) with (magnitude q + 1 + 3) by lia.
    rewrite Z.pow_add_r by lia.
    rewrite Z.mul_comm, inject_Z_mult.
    apply Qmult_lt_l; [reflexivity | exact Hhi].
Qed.

Lemma magnitude_below (q : Q) (j : Z) :
  (1 <= q)%Q -> 0 <= j -> (q < inject_Z (10 ^ j))%Q -> magnitude q < j.
Proof.
  intros H1 Hj Hq.
  destruct (magnitude_bounds q H1) as (Hm & Hlo & _).
  assert (A : 10 ^ magnitude q < 10 ^ j).
  { rewrite Zlt_Qlt. eapply Qle_lt_trans; eassumption. }
  apply Z.pow_lt_mono_r_iff in A; lia.
Qed.

(* ================================================================== *)
(** ** Compact notation and factors of a thousand *)

Lemma exponent_for_magnitude_shift (k : Z) :
  0 <= k <= 11 ->
  Intl.ComputeExponentForMagnitude (k + 3)
  = Intl.ComputeExponentForMagnitude k + 3.
Proof.
  intros H. unfold Intl.ComputeExponentForMagnitude.
  repeat match goal with
         | |- context [?a <? ?b] => destruct (Z.ltb_spec a b)
         end; lia.
Qed.

Lemma exponent_for_magnitude_values (k : Z) :
  k <= 11 ->
  let E := Intl.ComputeExponentForMagnitude k in
  E = 0 \/ E = 3 \/ E = 6 \/ E = 9.
Proof.
  intros H. unfold Intl.ComputeExponentForMagnitude.
  repeat match goal with
         | |- context [?a <? ?b] => destruct (Z.ltb_spec a b)
         end; lia.
Qed.

Lemma scaled_thousand (q q' : Q) (E : Z) :
  (q' == 1000 * q)%Q ->
  E = 0 \/ E = 3 \/ E = 6 \/ E = 9 ->
  (q' * exp10 (- (E + 3)) == q * exp10 (- E))%Q.
Proof.
  intros Hq HE. rewrite Hq. destruct q as [a b].
  destruct HE as [->|[->|[->| ->]]]; vm_compute exp10;
    unfold Qeq, Qmult; cbn [Qnum Qden];
    rewrite ?Pos2Z.inj_mul; ring.
Qed.

Lemma ToRawFixed_Qeq (q1 q2 : Q) (f : nat) :
  (q1 == q2)%Q -> Intl.ToRawFixed q1 f = Intl.ToRawFixed q2 f.
Proof.
  intros H. unfold Intl.ToRawFixed, round_half_up. now rewrite H.
Qed.

(** Hundreds of billions below 999.995 billion round to hundredths of
    billions still below a thousand. *)
Lemma hundreds_of_billions_rounded (q : Q) :
  (inject_Z (10 ^ 11) <= q)%Q -> (q < inject_Z 999995000000)%Q ->
  10000 <= Intl.ToRawFixed (q * exp10 (Z.opp 9)) 2 < 100000.
Proof.
  intros Hlo Hhi. unfold Intl.ToRawFixed, round_half_up.
  change (exp10 (Z.opp 9)) with (1 # 1000000000)%Q.
  change (inject_Z (pow10 2)) with (100 # 1)%Q.
  change (inject_Z (10 ^ 11)) with (100000000000 # 1)%Q in Hlo.
  change (inject_Z 999995000000) with (999995000000 # 1)%Q in Hhi.
  split.
  - apply Qfloor_above. change (inject_Z 10000) with (10000 # 1)%Q. lra.
  - apply Qfloor_below. change (inject_Z 100000) with (100000 # 1)%Q. lra.
Qed.

(** From one up to 999.995 billion, where the rounded amount is still
    counted in billions at most, a factor of a thousand moves the compact
    exponent by three, from one of none, thousands, millions and
    billions. *)
Lemma ComputeExponent_thousand (q q' : Q) :
  (1 <= q)%Q -> (q < inject_Z 999995000000)%Q -> (q' == 1000 * q)%Q ->
  (Intl.ComputeExponent q 2 = 0 \/ Intl.ComputeExponent q 2 = 3 \/
   Intl.ComputeExponent q 2 = 6 \/ Intl.ComputeExponent q 2 = 9) /\
  Intl.ComputeExponent q' 2 = Intl.ComputeExponent q 2 + 3.
Proof.
  intros H1 Hlt Hq'.
  destruct (magnitude_bounds q H1) as (Hk & Hlo & _).
  assert (Hk12 : magnitude q < 12).
  { apply magnitude_below; [exact H1 | lia |].
    eapply Qlt_trans; [exact Hlt|]. reflexivity. }
  unfold Intl.ComputeExponent. cbv zeta.
  rewrite (magnitude_thousand q q' H1 Hq').
  destruct (Z.eq_dec (magnitude q) 11) as [Hk11|Hk11].
  - rewrite Hk11 in *.
    change (Intl.ComputeExponentForMagnitude (11 + 3)) with 12.
    change (Intl.ComputeExponentForMagnitude 11) with 9.
    assert (Hx : (q' * exp10 (Z.opp 12) == q * exp10 (Z.opp 9))%Q)
      by exact (scaled_thousand q q' 9 Hq' ltac:(tauto)).
    rewrite (ToRawFixed_Qeq _ _ 2 Hx).
    destruct (hundreds_of_billions_rounded q Hlo Hlt) as [Hn1 Hn2].
    set (n := Intl.ToRawFixed (q * exp10 (Z.opp 9)) 2) in *.
    destruct (Z.eqb_spec n 0) as [Hz|_]; [lia|].
    assert (Hmag : magnitude (n # Z.to_pos (pow10 2)) = 2).
    { apply magnitude_unique; [lia| |];
        unfold Qle, Qlt; cbn [Qnum Qden inject_Z];
        change (Z.pos (Z.to_pos (pow10 2))) with 100;
        [change (10 ^ 2) with 100 | change (10 ^ (2 + 1)) with 1000]; lia. }
    rewrite Hmag. split; [tauto | reflexivity].
  - set (k := magnitude q) in *.
    rewrite exponent_for_magnitude_shift by lia.
    assert (HE := exponent_for_magnitude_values k ltac:(lia)).
    assert (HE1 := exponent_for_magnitude_values (k + 1) ltac:(lia)).
    cbv zeta in HE, HE1.
    set (E := Intl.ComputeExponentForMagnitude k) in *.
    rewrite (ToRawFixed_Qeq _ _ 2 (scaled_thousand q q' E Hq' HE)).
    destruct (Intl.ToRawFixed (q * exp10 (- E)) 2 =? 0); [now split|].
    replace (k + 3 - (E + 3)) with (k - E) by lia.
    destruct (_ =? k - E); [now split|].
    replace (k + 3 + 1) with (k + 1 + 3) by lia.
    rewrite exponent_for_magnitude_shift by lia.
    now split.
Qed.

Lemma compact_symbol_next (E : Z) :
  E = 0 \/ E = 3 \/ E = 6 \/ E = 9 ->
  In (Intl.compact_symbol E) [""; "K"; "M"; "B"] /\
  Intl.compact_symbol (E + 3) = next_suffix (Intl.compact_symbol E).
Proof.
  intros [->|[->|[->| ->]]]; simpl; tauto.
Qed.

Lemma format_finite_thousand (negative negative' : bool) (q q' : Q) :
  (1 <= q)%Q -> (q < inject_Z 999995000000)%Q -> (q' == 1000 * q)%Q ->
  exists number suffix,
    In suffix [""; "K"; "M"; "B"] /\
    Intl.format_finite currency_format negative q
    = Intl.sign_of negative ++ "$" ++ number ++ suffix /\
    Intl.format_finite currency_format negative' q'
    = Intl.sign_of negative' ++ "$" ++ number ++ next_suffix suffix.
Proof.
  intros H1 Hlt Hq'.
  destruct (ComputeExponent_thousand q q' H1 Hlt Hq') as [HE HE'].
  destruct (compact_symbol_next _ HE) as [Hin Hnext].
  exists (Intl.number_part currency_options
            (Intl.ToRawFixed
               (q * exp10 (- Intl.ComputeExponent q 2)) 2)),
         (Intl.compact_symbol (Intl.ComputeExponent q 2)).
  split; [exact Hin|]. split; [reflexivity|].
  unfold Intl.format_finite. cbv zeta.
  change (Intl.maximumFractionDigits (Intl.nf_options currency_format))
    with 2%nat.
  rewrite HE', Hnext.
  rewrite (ToRawFixed_Qeq _ _ 2 (scaled_thousand q q' _ Hq' HE)).
  reflexivity.
Qed.

Lemma format_of_reading (x : float) (negative : bool) (q : Q) :
  decimal_reading x = Some (negative, q) ->
  (1 <= q)%Q ->
  Intl.format currency_format x = Intl.format_finite currency_format negative q.
Proof.
  unfold decimal_reading, Intl.format.
  destruct (Prim2SF x) as [s|s| |s m e]; try discriminate.
  - intros E H. injection E as <- <-. now apply Qle_bool_iff in H.
  - destruct (shortest_decimal m e) as [d p].
    intros E _. now injection E as <- <-.
Qed.

Lemma append_inj_l (a b c : string) : a ++ b = a ++ c -> b = c.
Proof.
  induction a as [|x a IH]; simpl; intros H; [exact H|].
  injection H as H. now apply IH.
Qed.

Lemma next_suffix_differs (negative negative' : bool) (number suffix : string) :
  In suffix [""; "K"; "M"; "B"] ->
  Intl.sign_of negative ++ "$" ++ number ++ suffix
  <> Intl.sign_of negative' ++ "$" ++ number ++ next_suffix suffix.
Proof.
  intros Hin H.
  assert (E : suffix = next_suffix suffix).
  { destruct negative, negative'; simpl in H; try discriminate;
      repeat (injection H as H); now apply append_inj_l in H. }
  simpl in Hin.
  destruct Hin as [<-|[<-|[<-|[<-|[]]]]]; discriminate.
Qed.

(** Two finite numbers read as decimals a factor of a thousand apart, the
    smaller from one up to 999.995 billion: sign aside, they are formatted
    with the same digits and with consecutive magnitude suffixes, hence
    distinctly. *)
Lemma format_thousand_apart (v w : float) (sv sw : bool) (qv qw : Q) :
  decimal_reading v = Some (sv, qv) ->
  decimal_reading w = Some (sw, qw) ->
  (qw == 1000 * qv)%Q -> (1 <= qv)%Q ->
  (qv < inject_Z 999995000000)%Q ->
  exists number suffix,
    In suffix [""; "K"; "M"; "B"] /\
    Intl.format currency_format v
    = Intl.sign_of sv ++ "$" ++ number ++ suffix /\
    Intl.format currency_format w
    = Intl.sign_of sw ++ "$" ++ number ++ next_suffix suffix /\
    Intl.format currency_format v <> Intl.format currency_format w.
Proof.
  intros Hv Hw Hq H1 Hlt.
  assert (H1w : (1 <= qw)%Q).
  { rewrite Hq. eapply Qle_trans; [exact H1|].
    rewrite <- (Qmult_1_l qv) at 1.
    apply Qmult_le_compat_r; [discriminate|].
    eapply Qle_trans; [|exact H1]. discriminate. }
  rewrite (format_of_reading v sv qv Hv H1).
  rewrite (format_of_reading w sw qw Hw H1w).
  destruct (format_finite_thousand sv sw qv qw H1 Hlt Hq)
    as (number & suffix & Hin & Ev & Ew).
  exists number, suffix. rewrite Ev, Ew.
  repeat split; try assumption.
  now apply next_suffix_differs.
Qed.

(** C4, amended. For a metric name containing neither "ROIC" nor
    "Margins", every finite number is formatted as a US-dollar compact
    currency string with exactly two decimal places (minus sign if any,
    dollar sign, integer digits, point, two digits, magnitude suffix); and
    two finite numbers read as decimals a factor of a thousand apart, the
    smaller from one up to 999.995 billion (rounding to less than a
    thousand billion), get the same digits and consecutive magnitude
    suffixes, so that they are formatted distinctly, both with the dollar
    sign. *)
Theorem formatValue_compact_currency (metric : string) :
  ~ contains metric "ROIC" ->
  ~ contains metric "Margins" ->
  (forall v : float,
      Number_isFinite v = true ->
      exists s,
        formatValue (VNum v) metric = Normal (VStr s) /\
        compact_usd_string s) /\
  (forall (v w : float) (sv sw : bool) (qv qw : Q),
      decimal_reading v = Some (sv, qv) ->
      decimal_reading w = Some (sw, qw) ->
      (qw == 1000 * qv)%Q -> (1 <= qv)%Q ->
      (qv < inject_Z 999995000000)%Q ->
      exists number suffix,
        In suffix [""; "K"; "M"; "B"] /\
        formatValue (VNum v) metric
        = Normal (VStr (Intl.sign_of sv ++ "$" ++ number ++ suffix)) /\
        formatValue (VNum w) metric
        = Normal (VStr (Intl.sign_of sw ++ "$" ++ number
                        ++ next_suffix suffix)) /\
        formatValue (VNum v) metric <> formatValue (VNum w) metric).
Proof.
  intros HR HM.
  assert (Hb : String_includes metric "ROIC"
               || String_includes metric "Margins" = false).
  { apply orb_false_iff. split; now apply String_includes_false. }
  split.
  - intros v Hv. eexists. split; [apply (formatValue_currency _ _ Hb)|].
    now apply format_finite_compact_usd.
  - intros v w sv sw qv qw Hv Hw Hq H1 Hlt.
    destruct (format_thousand_apart v w sv sw qv qw Hv Hw Hq H1 Hlt)
      as (number & suffix & Hin & Ev & Ew & Hne).
    exists number, suffix.
    rewrite !(formatValue_currency _ _ Hb), <- Ev, <- Ew.
    repeat split; try assumption.
    intros E. injection E as E. contradiction.
Qed.

Lemma formatValue_compact_currency_witness :
  ~ contains "Revenue (DEFAULT)" "ROIC" /\
  ~ contains "Revenue (DEFAULT)" "Margins" /\
  compact_usd_string "$1.17K" /\
  formatValue (VNum 1169.09%float) "Revenue (DEFAULT)"
  = Normal (VStr "$1.17K") /\
  formatValue (VNum 1169090%float) "Revenue (DEFAULT)"
  = Normal (VStr "$1.17M") /\
  formatValue (VNum 1169.09%float) "Revenue (DEFAULT)"
  <> formatValue (VNum 1169090%float) "Revenue (DEFAULT)".
Proof.
  assert (HR : ~ contains "Revenue (DEFAULT)" "ROIC")
    by (apply String_includes_false; reflexivity).
  assert (HM : ~ contains "Revenue (DEFAULT)" "Margins")
    by (apply String_includes_false; reflexivity).
  split; [exact HR|]. split; [exact HM|].
  destruct (formatValue_compact_currency "Revenue (DEFAULT)" HR HM)
    as [Hshape Hthousand].
  destruct (Hshape 1169.09%float eq_refl) as (s & Hs & Hc).
  assert (E : Normal (VStr s) = Normal (VStr "$1.17K"))
    by (rewrite <- Hs; vm_compute; reflexivity).
  injection E as ->.
  split; [exact Hc|].
  assert (Hv : decimal_reading 1169.09%float = Some (false, 116909 # 100))
    by (vm_compute; reflexivity).
  assert (Hw : decimal_reading 1169090%float = Some (false, 1169090 # 1))
    by (vm_compute; reflexivity).
  destruct (Hthousand _ _ _ _ _ _ Hv Hw)
    as (number & suffix & _ & _ & _ & Hne);
    [reflexivity | discriminate | reflexivity |].
  split; [vm_compute; reflexivity|]. split; [vm_compute; reflexivity|].
  exact Hne.
Defined.

(** C4 as stated fails.  NaN is a number, and in the currency branch it
    reads "$NaN", with no decimal places; 0.000001 and 0.001 are a factor
    of a thousand apart, and both read "$0.00". *)
Lemma formatValue_currency_counterexamples :
  ~ contains "Revenue (DEFAULT)" "ROIC" /\
  ~ contains "Revenue (DEFAULT)" "Margins" /\
  formatValue (VNum nan) "Revenue (DEFAULT)" = Normal (VStr "$NaN") /\
  ~ compact_usd_string "$NaN" /\
  (exists qv qw,
      decimal_reading 0.000001%float = Some (false, qv) /\
      decimal_reading 0.001%float = Some (false, qw) /\
      (qw == 1000 * qv)%Q) /\
  formatValue (VNum 0.000001%float) "Revenue (DEFAULT)"
  = Normal (VStr "$0.00") /\
  formatValue (VNum 0.001%float) "Revenue (DEFAULT)"
  = Normal (VStr "$0.00").
Proof.
  split; [apply String_includes_false; reflexivity|].
  split; [apply String_includes_false; reflexivity|].
  split; [vm_compute; reflexivity|].
  split; [exact not_compact_usd_NaN|].
  split; [|split; vm_compute; reflexivity].
  eexists _, _. split; [vm_compute; reflexivity|].
  split; [vm_compute; reflexivity|]. reflexivity.
Qed.

(* ================================================================== *)
(** ** The cell's colour *)

Lemma ltb_zero_is_negative (x : float) :
  (x <? 0)%float = is_negative x.
Proof.
  rewrite ltb_spec. unfold is_negative.
  change (Prim2SF 0%float) with (S754_zero false).
  destruct (Prim2SF x) as [s|s| |s m e]; try destruct s; reflexivity.
Qed.

Lemma cell_renders (value : float) (metric : string) :
  exists text,
    formatValue (VNum value) metric = Normal (VStr text) /\
    cell value metric =
    Normal {| className := if is_negative value then "text-red-500" else "";
              children := VStr text |}.
Proof.
  destruct (formatValue_number_string value metric) as [text H].
  exists text. split; [exact H|].
  unfold cell. rewrite H. simpl. now rewrite ltb_zero_is_negative.
Qed.

(** C8. Formatting -26.74 for "NOPBT (DEFAULT)" gives "-$26.74", a
    currency string that begins with the minus sign.  The cell takes the
    red class exactly when the raw number is below zero, whatever the
    formatted text: minus zero and -0.001 both read "-$0.00", and only the
    second is marked. *)
Theorem negative_amount_cell :
  formatValue (VNum (-26.74)%float) "NOPBT (DEFAULT)"
  = Normal (VStr ("-" ++ "$26.74")) /\
  (forall (value : float) (metric : string),
      exists text,
        formatValue (VNum value) metric = Normal (VStr text) /\
        cell value metric =
        Normal {| className :=
                    if is_negative value then "text-red-500" else "";
                  children := VStr text |}) /\
  cell (-0)%float "NOPBT (DEFAULT)"
  = Normal {| className := ""; children := VStr "-$0.00" |} /\
  cell (-0.001)%float "NOPBT (DEFAULT)"
  = Normal {| className := "text-red-500"; children := VStr "-$0.00" |}.
Proof.
  split; [vm_compute; reflexivity|].
  split; [exact cell_renders|].
  split; vm_compute; reflexivity.
Qed.

(* ================================================================== *)
(** ** The chart export *)

Import ChartExport.

Lemma exportChartToImage_unmounted (h : Host) (tr : list Event) :
  exportChartToImage h None tr = (tr, Normal tt).
Proof. reflexivity. Qed.

Lemma exportChartToImage_mounted (h : Host) (node : nat) (tr : list Event) :
  exportChartToImage h (Some node) tr =
  match export_attempt h node with
  | Normal dataUrl =>
      ((tr ++ [Download "financial_performance_trends.png" dataUrl])%list,
       Normal tt)
  | Throw err =>
      ((tr ++ [ConsoleError "Error exporting chart to image:" err])%list,
       Normal tt)
  end.
Proof.
  unfold exportChartToImage, export_attempt, try_catch, seq, lift, emit.
  destruct (toPng h node 0.95%float) as [dataUrl|e]; simpl; [|reflexivity].
  destruct (createElement h "a") as [link|e]; simpl; [|reflexivity].
  destruct (click h link) as [[]|e]; reflexivity.
Qed.

(** C9, amended. With no surface mounted the export returns at once and
    in silence: nothing is downloaded, nothing is logged, and the action
    completes normally.  On a mounted surface every failure of the
    collaborators is caught and logged once, no file is offered, and the
    action still completes normally; for no host and no handle does a
    failure reach the caller. *)
Theorem exportChartToImage_fails_gracefully (h : Host) (tr : list Event) :
  exportChartToImage h None tr = (tr, Normal tt) /\
  (forall current, snd (exportChartToImage h current tr) = Normal tt) /\
  (forall node err,
      export_attempt h node = Throw err ->
      exportChartToImage h (Some node) tr =
      ((tr ++ [ConsoleError "Error exporting chart to image:" err])%list,
       Normal tt)) /\
  (forall node dataUrl,
      export_attempt h node = Normal dataUrl ->
      exportChartToImage h (Some node) tr =
      ((tr ++ [Download "financial_performance_trends.png" dataUrl])%list,
       Normal tt)).
Proof.
  split; [reflexivity|]. split; [|split].
  - intros [node|]; [|reflexivity].
    rewrite exportChartToImage_mounted.
    now destruct (export_attempt h node).
  - intros node err H. now rewrite exportChartToImage_mounted, H.
  - intros node dataUrl H. now rewrite exportChartToImage_mounted, H.
Qed.

(** C9 as stated fails.  A missing surface is not treated as a failure
    that is logged: the guard returns before anything is written to the
    console, whatever the collaborators would have answered. *)
Lemma exportChartToImage_unmounted_is_silent :
  let h := {| toPng := fun _ _ => Throw (HostError "no surface");
              createElement := fun _ => Normal 0%nat;
              click := fun _ => Normal tt |} in
  exportChartToImage h None [] = ([], Normal tt) /\
  forall message err,
    ~ In (ConsoleError message err) (fst (exportChartToImage h None [])).
Proof.
  split; [reflexivity|]. intros message err [].
Qed.

(* ================================================================== *)
(** ** Own keys of a record *)

Lemma filter_split_perm {A : Type} (f : A -> bool) (l : list A) :
  Permutation (filter f l ++ filter (fun x => negb (f x)) l)%list l.
Proof.
  induction l as [|a l IH]; simpl; [constructor|].
  destruct (f a); simpl.
  - now constructor.
  - symmetry. apply Permutation_cons_app. now symmetry.
Qed.

Lemma insert_index_perm (n : Z) (k : string) (l : list (Z * string)) :
  Permutation (map snd (insert_index n k l)) (k :: map snd l).
Proof.
  induction l as [|[n' k'] l IH]; simpl; [constructor; constructor|].
  destruct (n <=? n'); simpl.
  - apply Permutation_refl.
  - rewrite IH. apply perm_swap.
Qed.

Lemma sorted_indices_perm (keys : list string) :
  Permutation (map snd (sorted_indices keys)) (filter is_array_index keys).
Proof.
  induction keys as [|k keys IH]; simpl; [constructor|].
  unfold is_array_index at 1.
  destruct (array_index k) as [n|].
  - rewrite insert_index_perm. now constructor.
  - exact IH.
Qed.

Lemma OwnPropertyKeys_perm (props : Properties) :
  Permutation (OwnPropertyKeys props) (distinct_keys [] (map fst props)).
Proof.
  unfold OwnPropertyKeys.
  rewrite sorted_indices_perm. apply filter_split_perm.
Qed.

Lemma existsb_eqb_In (k : string) (seen : list string) :
  existsb (String.eqb k) seen = true <-> In k seen.
Proof.
  rewrite existsb_exists. split.
  - intros (x & Hx & E). apply String.eqb_eq in E. now subst.
  - intros H. exists k. split; [exact H | apply String.eqb_refl].
Qed.

Lemma distinct_keys_In (k : string) (keys seen : list string) :
  In k (distinct_keys seen keys) <-> In k keys /\ ~ In k seen.
Proof.
  revert seen; induction keys as [|a keys IH]; intros seen; simpl.
  - tauto.
  - destruct (existsb (String.eqb a) seen) eqn:E.
    + apply existsb_eqb_In in E. rewrite IH.
      split; [tauto|]. intros [[->|H] Hn]; tauto.
    + assert (Ha : ~ In a seen).
      { intros H. apply existsb_eqb_In in H. congruence. }
      simpl. rewrite IH. simpl.
      split.
      * intros [->|[H Hn]]; tauto.
      * intros [[->|H] Hn]; [now left|].
        destruct (string_dec a k) as [->|Hne]; [now left|right]. tauto.
Qed.

Lemma distinct_keys_NoDup (keys seen : list string) :
  NoDup (distinct_keys seen keys).
Proof.
  revert seen; induction keys as [|a keys IH]; intros seen; simpl.
  - constructor.
  - destruct (existsb (String.eqb a) seen); [apply IH|].
    constructor; [|apply IH].
    rewrite distinct_keys_In. simpl. tauto.
Qed.

Lemma own_keys (r : MetricRecord) :
  map fst (own_properties r) =
  "metric"
  :: map fst (filter (fun kv => negb (fst kv =? "__proto__")%string)
                     (periods r)).
Proof. unfold own_properties. simpl. now rewrite map_map. Qed.

(** The period keys are the labels written in the record, each once; the
    label of the record itself and [__proto__] are not among them. *)
Lemma period_keys_In (r : MetricRecord) (k : string) :
  In k (period_keys r) <->
  In k (map fst (periods r)) /\ k <> "metric" /\ k <> "__proto__".
Proof.
  unfold period_keys. rewrite filter_In.
  rewrite (Permutation_in' (eq_refl k) (OwnPropertyKeys_perm _)).
  rewrite distinct_keys_In, own_keys. simpl.
  rewrite negb_true_iff, String.eqb_neq.
  rewrite in_map_iff.
  split.
  - intros [[[E|((k', v) & E & Hin)] _] Hm]; [congruence|].
    apply filter_In in Hin as [Hin Hp]. simpl in *. subst k'.
    apply negb_true_iff, String.eqb_neq in Hp.
    split; [|tauto]. apply in_map_iff. now exists (k, v).
  - intros (Hin & Hm & Hp). split; [|exact Hm]. split; [|tauto].
    right. apply in_map_iff in Hin as ((k', v) & E & Hin). simpl in E.
    subst k'. exists (k, v). split; [reflexivity|].
    apply filter_In. split; [exact Hin|]. simpl.
    now apply negb_true_iff, String.eqb_neq.
Qed.

Lemma period_keys_NoDup (r : MetricRecord) : NoDup (period_keys r).
Proof.
  unfold period_keys. apply NoDup_filter.
  eapply Permutation_NoDup; [symmetry; apply OwnPropertyKeys_perm|].
  apply distinct_keys_NoDup.
Qed.

Lemma insert_index_In (n : Z) (k : string) (l : list (Z * string))
      (x : Z * string) :
  In x (insert_index n k l) <-> x = (n, k) \/ In x l.
Proof.
  induction l as [|[n' k'] l IH]; simpl.
  - intuition congruence.
  - destruct (n <=? n'); simpl; [intuition congruence|].
    rewrite IH. intuition congruence.
Qed.

Lemma sorted_indices_In (keys : list string) (n : Z) (k : string) :
  In (n, k) (sorted_indices keys) <-> In k keys /\ array_index k = Some n.
Proof.
  induction keys as [|a keys IH]; simpl; [tauto|].
  destruct (array_index a) as [m|] eqn:E.
  - rewrite insert_index_In, IH. split.
    + intros [H|[H1 H2]]; [injection H as -> ->; tauto | tauto].
    + intros [[->|H] Hk]; [left; congruence | tauto].
  - rewrite IH. split; [tauto|].
    intros [[->|H] Hk]; [congruence | tauto].
Qed.

Lemma insert_index_sorted (n : Z) (k : string) (l : list (Z * string)) :
  Sorted (fun a b => fst a <= fst b) l ->
  Sorted (fun a b => fst a <= fst b) (insert_index n k l).
Proof.
  induction 1 as [|[n' k'] l Hs IH Hd]; simpl.
  - repeat constructor.
  - destruct (Z.leb_spec n n').
    + constructor; [now constructor|]. now constructor.
    + constructor; [exact IH|].
      destruct l as [|[n2 k2] l]; simpl.
      * constructor. simpl. lia.
      * destruct (n <=? n2); constructor; simpl; try lia.
        now inversion Hd.
Qed.

(** The array indices come out in ascending numeric order. *)
Lemma sorted_indices_sorted (keys : list string) :
  Sorted (fun a b => fst a <= fst b) (sorted_indices keys).
Proof.
  induction keys as [|a keys IH]; simpl; [constructor|].
  destruct (array_index a); [now apply insert_index_sorted | exact IH].
Qed.

Lemma filter_all_true {A : Type} (f : A -> bool) (l : list A) :
  (forall x, In x l -> f x = true) -> filter f l = l.
Proof.
  induction l as [|a l IH]; simpl; intros H; [reflexivity|].
  rewrite (H a) by now left. f_equal. apply IH. intros x Hx. apply H. now right.
Qed.

(** The order of the period keys: first the labels that are array indices
    (a year such as "2017" is one), by ascending number, then the other
    labels in the order the record was written. *)
Lemma period_keys_order (r : MetricRecord) :
  let written := distinct_keys [] (map fst (own_properties r)) in
  period_keys r =
  (map snd (sorted_indices written)
   ++ filter (fun k => negb (k =? "metric")%string)
        (filter (fun k => negb (is_array_index k)) written))%list.
Proof.
  intros written. unfold period_keys, OwnPropertyKeys. fold written.
  rewrite filter_app. f_equal.
  apply filter_all_true. intros k Hk.
  apply in_map_iff in Hk as ([n k'] & E & Hin). simpl in E. subst k'.
  apply sorted_indices_In in Hin as [_ Hidx].
  apply negb_true_iff, String.eqb_neq. intros ->. discriminate.
Qed.

Lemma ascending_from_index (lo : Z) (keys : list string) (k : string) :
  ascending_from lo keys -> In k keys ->
  exists n, array_index k = Some n /\ lo < n.
Proof.
  revert lo; induction keys as [|a keys IH]; intros lo H Hin; [easy|].
  destruct H as (n & Hn & Hlo & Hrest). destruct Hin as [->|Hin].
  - now exists n.
  - destruct (IH n Hrest Hin) as (n' & Hn' & Hlt). exists n'. split; [easy|lia].
Qed.

Lemma distinct_keys_ascending (lo : Z) (keys seen : list string) :
  ascending_from lo keys ->
  (forall k,
      In k seen ->
      array_index k = None \/ exists n, array_index k = Some n /\ n <= lo) ->
  distinct_keys seen keys = keys.
Proof.
  revert lo seen; induction keys as [|a keys IH]; intros lo seen H Hseen;
    [reflexivity|].
  destruct H as (n & Hn & Hlo & Hrest). cbn [distinct_keys].
  destruct (existsb (String.eqb a) seen) eqn:E.
  - apply existsb_eqb_In in E.
    destruct (Hseen a E) as [Hnone|(n' & Hn' & Hle)]; [congruence|].
    rewrite Hn in Hn'. injection Hn' as <-. lia.
  - f_equal. apply (IH n); [exact Hrest|].
    intros k [<-|Hk].
    + right. exists n. split; [exact Hn | lia].
    + destruct (Hseen k Hk) as [Hnone|(n' & Hn' & Hle)]; [now left|].
      right. exists n'. split; [exact Hn' | lia].
Qed.

Lemma insert_index_head (n : Z) (k : string) (l : list (Z * string)) :
  (forall x, In x l -> n < fst x) -> insert_index n k l = (n, k) :: l.
Proof.
  destruct l as [|[n' k'] l]; [reflexivity|]. intros H. cbn [insert_index].
  assert (Hlt := H (n', k') (or_introl eq_refl)). simpl in Hlt.
  destruct (Z.leb_spec n n'); [reflexivity | lia].
Qed.

Lemma sorted_indices_ascending (lo : Z) (keys : list string) :
  ascending_from lo keys ->
  map snd (sorted_indices keys) = keys /\
  (forall x, In x (sorted_indices keys) -> lo < fst x).
Proof.
  revert lo; induction keys as [|a keys IH]; intros lo H; [easy|].
  destruct H as (n & Hn & Hlo & Hrest). cbn [sorted_indices]. rewrite Hn.
  destruct (IH n Hrest) as [Hmap Hall].
  rewrite insert_index_head by exact Hall.
  split; [simpl; now rewrite Hmap|].
  intros x [<-|Hx]; [exact Hlo|]. specialize (Hall x Hx). lia.
Qed.

Lemma filter_none {A : Type} (f : A -> bool) (l : list A) :
  (forall x, In x l -> f x = false) -> filter f l = [].
Proof.
  induction l as [|a l IH]; intros H; [reflexivity|]. simpl.
  rewrite (H a) by now left. apply IH. intros x Hx. apply H. now right.
Qed.

(** Period labels that are array indices written in ascending order, as the
    years of the source's table are, come out in the order written. *)
Lemma period_keys_ascending (r : MetricRecord) :
  ascending_from (-1) (map fst (periods r)) ->
  period_keys r = map fst (periods r).
Proof.
  intros H.
  assert (Hidx : forall k,
             In k (map fst (periods r)) -> is_array_index k = true).
  { intros k Hk. destruct (ascending_from_index _ _ _ H Hk) as (n & Hn & _).
    unfold is_array_index. now rewrite Hn. }
  assert (Hfilter :
            filter (fun kv => negb (fst kv =? "__proto__")%string) (periods r)
            = periods r).
  { apply filter_all_true. intros [k v] Hin. simpl.
    apply negb_true_iff, String.eqb_neq. intros ->.
    assert (E := Hidx "__proto__" (in_map fst _ _ Hin)). discriminate. }
  rewrite period_keys_order. cbv zeta. rewrite own_keys, Hfilter.
  cbn [distinct_keys existsb].
  rewrite (distinct_keys_ascending (-1) _ ["metric"] H).
  - cbn [sorted_indices filter]. change (array_index "metric") with (@None Z).
    change (is_array_index "metric") with false. cbn [negb filter].
    destruct (sorted_indices_ascending (-1) _ H) as [-> _].
    change ("metric" =? "metric")%string with true. cbn [negb].
    rewrite (filter_none (fun k => negb (is_array_index k)));
      [apply app_nil_r|].
    intros k Hk. now rewrite (Hidx k Hk).
  - intros k [<-|[]]. now left.
Qed.

(** Otherwise the order differs from the order written: the array indices
    are moved to the front and sorted. *)
Lemma period_keys_indices_first :
  period_keys {| metric := "Revenue (DEFAULT)";
                 periods := [ ("Q1", 1%float); ("2018", 2%float);
                              ("2017", 3%float) ] |}
  = ["2017"; "2018"; "Q1"].
Proof. reflexivity. Qed.

(* ================================================================== *)
(** ** The series projector *)

Lemma mapM_normal {A B : Type} (f : A -> Completion B) (g : A -> B)
      (l : list A) :
  (forall x, f x = Normal (g x)) -> mapM f l = Normal (map g l).
Proof.
  intros H. induction l as [|a l IH]; simpl; [reflexivity|].
  now rewrite H, IH.
Qed.

Lemma mapM_throw {A B : Type} (f : A -> Completion B) (e : Error)
      (a : A) (l : list A) :
  f a = Throw e -> mapM f (a :: l) = Throw e.
Proof. intros H. simpl. now rewrite H. Qed.

(** With the three selected records present, the projector emits, for each
    period key of the first record in turn, the point read from the three
    records. *)
Lemma chartData_three (r0 r1 r2 : MetricRecord) (rest : list MetricRecord) :
  chartData (r0 :: r1 :: r2 :: rest) =
  Normal (map (fun y => {| year := y;
                           revenue := Get (own_properties r0) y;
                           nopbt := Get (own_properties r1) y;
                           roic := times_100 (Get (own_properties r2) y) |})
              (period_keys r0)).
Proof.
  unfold chartData. simpl. now apply mapM_normal.
Qed.

(** With fewer than three records, the first of them present: the empty
    sequence when there is no period to project, a TypeError at the first
    period otherwise. *)
Lemma chartData_short (r0 : MetricRecord) (rest : list MetricRecord) :
  (List.length rest < 2)%nat ->
  chartData (r0 :: rest) =
  match period_keys r0 with
  | [] => Normal []
  | _ :: _ => Throw TypeError
  end.
Proof.
  intros Hlen. unfold chartData. simpl. fold (period_keys r0).
  destruct (period_keys r0) as [|y ys]; [reflexivity|].
  apply mapM_throw.
  destruct rest as [|r1 [|r2 rest]]; simpl in *; try reflexivity; lia.
Qed.

Lemma chartData_empty : chartData [] = Throw TypeError.
Proof. reflexivity. Qed.

Lemma GetOwnProperty_periods (entries : list (string * float)) (y : string) :
  y <> "__proto__" ->
  GetOwnProperty
    (map (fun kv => (fst kv, VNum (snd kv)))
         (filter (fun kv => negb (fst kv =? "__proto__")%string) entries)) y
  = option_map VNum (raw_value entries y).
Proof.
  intros Hy. induction entries as [|[k v] entries IH]; [reflexivity|].
  cbn [filter raw_value fst snd].
  destruct (String.eqb_spec k "__proto__") as [->|Hk];
    cbn [negb map GetOwnProperty fst snd]; rewrite IH;
    (destruct (raw_value entries y); [reflexivity|]).
  - destruct (String.eqb_spec "__proto__" y); [congruence | reflexivity].
  - now destruct (k =? y)%string.
Qed.

(** A record yields the number written under a period label. *)
Lemma Get_raw_value (r : MetricRecord) (y : string) (v : float) :
  y <> "__proto__" ->
  raw_value (periods r) y = Some v ->
  Get (own_properties r) y = VNum v.
Proof.
  intros Hy Hv. unfold Get, own_properties. simpl.
  now rewrite (GetOwnProperty_periods _ _ Hy), Hv.
Qed.

(** C2, amended. When the table holds the three records the projector
    selects, it emits one point per period key of the first record, in the
    order that record enumerates its keys; the output is as long as that
    record has period keys, each key is met once, and the keys are the
    labels written in the record.  When these labels are array indices
    written in ascending order, as years are, that order is the order
    written. *)
Theorem chartData_one_point_per_period
        (r0 r1 r2 : MetricRecord) (rest : list MetricRecord) :
  exists pts,
    chartData (r0 :: r1 :: r2 :: rest) = Normal pts /\
    map year pts = period_keys r0 /\
    List.length pts = List.length (period_keys r0) /\
    NoDup (map year pts) /\
    (forall k, In k (map year pts) <->
               In k (map fst (periods r0))
               /\ k <> "metric" /\ k <> "__proto__") /\
    (ascending_from (-1) (map fst (periods r0)) ->
     map year pts = map fst (periods r0)).
Proof.
  eexists. split; [apply chartData_three|].
  rewrite map_map, map_id, length_map. simpl.
  split; [reflexivity|]. split; [reflexivity|].
  split; [apply period_keys_NoDup|].
  split; [apply period_keys_In | apply period_keys_ascending].
Qed.

(** C2 as stated fails: a table of one record with one period is not
    empty, and the projector throws instead of emitting a point. *)
Lemma chartData_single_record_throws :
  let table := [ {| metric := "Revenue (DEFAULT)";
                    periods := [("2017", 1169.09%float)] |} ] in
  table <> [] /\
  period_keys (hd {| metric := ""; periods := [] |} table) = ["2017"] /\
  chartData table = Throw TypeError /\
  ~ (exists pts, chartData table = Normal pts).
Proof.
  simpl. split; [discriminate|]. split; [reflexivity|].
  split; [reflexivity|]. intros [pts H]. discriminate.
Qed.

(** C3, amended. The projector scales by position, not by what a metric
    denotes: the value of the third record is emitted multiplied by 100 and
    those of the first and second record as they are written, whatever the
    records are named; on the spec's scenario, whose third record is the
    ROIC, the one point for "2017" carries 1169.09, 436.27 and 54.2. *)
Theorem chartData_percentage_times_100 :
  (forall (r0 r1 r2 : MetricRecord) (rest : list MetricRecord),
      exists pts,
        chartData (r0 :: r1 :: r2 :: rest) = Normal pts /\
        Forall (fun p =>
                  (forall v, raw_value (periods r2) (year p) = Some v ->
                             roic p = (v * 100)%float) /\
                  (forall v, raw_value (periods r0) (year p) = Some v ->
                             revenue p = VNum v) /\
                  (forall v, raw_value (periods r1) (year p) = Some v ->
                             nopbt p = VNum v))
               pts) /\
  chartData
    [ {| metric := "Revenue"; periods := [("2017", 1169.09%float)] |};
      {| metric := "NOPBT"; periods := [("2017", 436.27%float)] |};
      {| metric := "ROIC"; periods := [("2017", 0.5420%float)] |} ]
  = Normal [ {| year := "2017";
                revenue := VNum 1169.09%float;
                nopbt := VNum 436.27%float;
                roic := 54.20%float |} ].
Proof.
  split; [|vm_compute; reflexivity].
  intros r0 r1 r2 rest. eexists. split; [apply chartData_three|].
  apply Forall_forall. intros p Hp.
  apply in_map_iff in Hp as (y & <- & Hy). simpl.
  apply period_keys_In in Hy as (_ & _ & Hproto).
  repeat split; intros v Hv.
  - now rewrite (Get_raw_value _ _ _ Hproto Hv).
  - now apply Get_raw_value.
  - now apply Get_raw_value.
Qed.

(** C3 as stated fails.  With the ROIC record first and the revenue
    third, the ROIC, which the formatter writes as a percentage, is emitted
    as written, and the revenue, which it writes as an amount, is emitted
    multiplied by 100. *)
Lemma chartData_scales_by_position :
  contains "ROIC (DEFAULT)" "ROIC" /\
  ~ contains "Revenue (DEFAULT)" "ROIC" /\
  ~ contains "Revenue (DEFAULT)" "Margins" /\
  chartData
    [ {| metric := "ROIC (DEFAULT)"; periods := [("2017", 0.5420%float)] |};
      {| metric := "NOPBT (DEFAULT)"; periods := [("2017", 436.27%float)] |};
      {| metric := "Revenue (DEFAULT)";
         periods := [("2017", 1169.09%float)] |} ]
  = Normal [ {| year := "2017";
                revenue := VNum 0.5420%float;
                nopbt := VNum 436.27%float;
                roic := (1169.09 * 100)%float |} ].
Proof.
  split; [exists "", " (DEFAULT)"; reflexivity|].
  split; [apply String_includes_false; reflexivity|].
  split; [apply String_includes_false; reflexivity|].
  vm_compute. reflexivity.
Qed.

(** C5, amended. On a table without records the projector throws a
    TypeError, raised when the keys of the absent first record are asked
    for.  It returns the empty sequence exactly when the first record is
    there and has no period key. *)
Theorem chartData_empty_sequence :
  chartData [] = Throw TypeError /\
  (forall data,
      chartData data = Normal [] <->
      exists r rest, data = r :: rest /\ period_keys r = []).
Proof.
  split; [reflexivity|]. intros data. split.
  - destruct data as [|r0 rest]; [discriminate|].
    intros H. exists r0, rest. split; [reflexivity|].
    destruct rest as [|r1 [|r2 rest]].
    + rewrite chartData_short in H by (simpl; lia).
      now destruct (period_keys r0).
    + rewrite chartData_short in H by (simpl; lia).
      now destruct (period_keys r0).
    + rewrite chartData_three in H. injection H as H.
      now destruct (period_keys r0).
  - intros (r & rest & -> & Hk).
    unfold chartData. simpl. fold (period_keys r). now rewrite Hk.
Qed.

(** C5 as stated fails: the empty table makes the projector throw. *)
Lemma chartData_no_records_throws :
  chartData [] = Throw TypeError /\ chartData [] <> Normal [].
Proof. split; [reflexivity | discriminate]. Qed.

(** C6, amended. With a selected index (0, 1 or 2) out of range the
    projector throws a TypeError (the error of reading from undefined;
    there is no separate condition for an invalid selection) when the table
    is empty or its first record has a period key; when the first record
    has no period key it returns the empty sequence. *)
Theorem chartData_selection_out_of_range (data : list MetricRecord) :
  (List.length data < 3)%nat ->
  (data = [] \/ (exists r rest, data = r :: rest /\ period_keys r <> []) ->
   chartData data = Throw TypeError) /\
  ((exists r rest, data = r :: rest /\ period_keys r = []) ->
   chartData data = Normal []).
Proof.
  intros Hlen. split.
  - intros [->|(r & rest & -> & Hk)]; [reflexivity|].
    rewrite chartData_short by (simpl in Hlen; lia).
    now destruct (period_keys r).
  - intros (r & rest & -> & Hk).
    rewrite chartData_short by (simpl in Hlen; lia).
    now rewrite Hk.
Qed.

Lemma chartData_selection_out_of_range_witness :
  let table := [ {| metric := "Revenue (DEFAULT)";
                    periods := [("2017", 1169.09%float)] |} ] in
  (List.length table < 3)%nat /\ chartData table = Throw TypeError.
Proof.
  intros table.
  assert (Hlen : (List.length table < 3)%nat) by (simpl; lia).
  split; [exact Hlen|].
  apply (proj1 (chartData_selection_out_of_range table Hlen)).
  right. eexists _, _. split; [reflexivity|]. discriminate.
Defined.

(** C6 as stated fails: with one record without periods the indices 1 and
    2 are out of range, and the projector returns the empty sequence. *)
Lemma chartData_out_of_range_without_failure :
  let table := [ {| metric := "Revenue (DEFAULT)"; periods := [] |} ] in
  Array_get table 1 = None /\
  Array_get table 2 = None /\
  chartData table = Normal [].
Proof. repeat split. Qed.

(** On the table of the source the years come out as written, 2017 to
    2028, and the first point is the one for 2017. *)
Lemma chartData_of_source_table :
  exists pts,
    chartData data = Normal pts /\
    map year pts
    = [ "2017"; "2018"; "2019"; "2020"; "2021"; "2022";
        "2023"; "2024"; "2025"; "2026"; "2027"; "2028" ] /\
    hd_error pts
    = Some {| year := "2017";
              revenue := VNum 1169.09%float;
              nopbt := VNum 436.27%float;
              roic := 54.20%float |}.
Proof.
  eexists. split; [vm_compute; reflexivity|]. split; reflexivity.
Qed.

(* ================================================================== *)
(** ** More on the series projector *)

Lemma Get_missing (r : MetricRecord) (y : string) :
  y <> "metric" -> y <> "__proto__" ->
  raw_value (periods r) y = None ->
  Get (own_properties r) y =
  match position y ObjectPrototype_methods with
  | Some i => VObject (S i) true
  | None => VUndefined
  end.
Proof.
  intros Hm Hp Hv. unfold Get, own_properties.
  cbn [GetOwnProperty]. rewrite (GetOwnProperty_periods _ _ Hp), Hv.
  cbn [option_map].
  destruct (String.eqb_spec "metric" y) as [E|_]; [congruence|].
  destruct (String.eqb_spec y "__proto__") as [E|_]; [congruence|].
  reflexivity.
Qed.

Lemma position_None (y : string) (l : list string) :
  position y l = None <-> ~ In y l.
Proof.
  induction l as [|k l IH]; simpl; [tauto|].
  destruct (String.eqb_spec k y) as [->|Hne].
  - split; [discriminate | tauto].
  - destruct (position y l); simpl.
    + split; [discriminate|]. intros H.
      assert (Hn : ~ In y l) by tauto.
      apply IH in Hn. discriminate.
    + split; [|reflexivity]. intros _ [E|Hin]; [congruence|].
      now apply IH in Hin.
Qed.

(** X1. Records after the third never reach the chart. *)
Theorem chartData_ignores_further_records
        (r0 r1 r2 : MetricRecord) (rest : list MetricRecord) :
  chartData (r0 :: r1 :: r2 :: rest) = chartData [r0; r1; r2].
Proof. now rewrite !chartData_three. Qed.

(** X2. A period of the first record that the second or third record lacks
    raises no error: the point carries NaN as [roic] when the third lacks
    it, and as [nopbt] undefined when the second lacks it, or the inherited
    method when the label names one of Object.prototype. *)
Theorem chartData_missing_period
        (r0 r1 r2 : MetricRecord) (rest : list MetricRecord) :
  exists pts,
    chartData (r0 :: r1 :: r2 :: rest) = Normal pts /\
    Forall (fun p =>
              (raw_value (periods r2) (year p) = None -> roic p = nan) /\
              (raw_value (periods r1) (year p) = None ->
               ~ In (year p) ObjectPrototype_methods ->
               nopbt p = VUndefined) /\
              (raw_value (periods r1) (year p) = None ->
               In (year p) ObjectPrototype_methods ->
               exists ref, nopbt p = VObject ref true))
           pts.
Proof.
  eexists. split; [apply chartData_three|].
  apply Forall_forall. intros p Hp.
  apply in_map_iff in Hp as (y & <- & Hy). cbn [year nopbt roic].
  apply period_keys_In in Hy as (_ & Hm & Hproto).
  repeat split.
  - intros Hv. rewrite (Get_missing _ _ Hm Hproto Hv).
    now destruct (position y ObjectPrototype_methods).
  - intros Hv Hn. rewrite (Get_missing _ _ Hm Hproto Hv).
    apply position_None in Hn. now rewrite Hn.
  - intros Hv Hin. rewrite (Get_missing _ _ Hm Hproto Hv).
    destruct (position y ObjectPrototype_methods) as [i|] eqn:E.
    + now exists (S i).
    + apply position_None in E. contradiction.
Qed.

(** X3. When the projector throws: exactly on an empty table, or on one of
    fewer than three records whose first record has a period key; and the
    error is a TypeError. *)
Theorem chartData_throws_exactly (data : list MetricRecord) (e : Error) :
  chartData data = Throw e <->
  e = TypeError /\
  (data = [] \/
   (List.length data < 3)%nat /\
   exists r rest, data = r :: rest /\ period_keys r <> []).
Proof.
  split.
  - destruct data as [|r0 [|r1 [|r2 rest]]].
    + intros H. injection H as <-. split; [reflexivity | now left].
    + rewrite chartData_short by (simpl; lia).
      destruct (period_keys r0) eqn:E; [discriminate|].
      intros H. injection H as <-. split; [reflexivity|]. right.
      split; [simpl; lia|]. exists r0, []. rewrite E. now split.
    + rewrite chartData_short by (simpl; lia).
      destruct (period_keys r0) eqn:E; [discriminate|].
      intros H. injection H as <-. split; [reflexivity|]. right.
      split; [simpl; lia|]. exists r0, [r1]. rewrite E. now split.
    + rewrite chartData_three. discriminate.
  - intros [-> [->|(Hlen & r & rest & -> & Hk)]]; [reflexivity|].
    rewrite chartData_short by (simpl in Hlen; lia).
    now destruct (period_keys r).
Qed.



(* ================================================================== *)
(** ** The columns *)

Lemma years_cons (r : MetricRecord) (rest : list MetricRecord) :
  years (r :: rest) = Normal (period_keys r).
Proof. reflexivity. Qed.

Lemma columns_cons (r : MetricRecord) (rest : list MetricRecord) :
  exists cols,
    columns (r :: rest) = Normal cols /\
    map accessorKey cols = "metric" :: period_keys r.
Proof.
  eexists. split; [reflexivity|]. simpl. now rewrite map_map, map_id.
Qed.

(** X5. The columns exist exactly when the table has a first record (on an
    empty table a TypeError is thrown before anything is rendered); they
    are the label column followed by one column per period key of the
    first record, and no two columns share an accessor key. *)
Theorem columns_distinct_keys :
  columns [] = Throw TypeError /\
  (forall (r : MetricRecord) (rest : list MetricRecord),
      exists cols,
        columns (r :: rest) = Normal cols /\
        map accessorKey cols = "metric" :: period_keys r /\
        NoDup (map accessorKey cols) /\
        List.length cols = S (List.length (period_keys r))).
Proof.
  split; [reflexivity|].
  intros r rest. destruct (columns_cons r rest) as (cols & Hc & Hk).
  exists cols. split; [exact Hc|]. split; [exact Hk|]. split.
  - rewrite Hk. constructor; [|apply period_keys_NoDup].
    intros Hin. apply period_keys_In in Hin. tauto.
  - rewrite <- (length_map accessorKey), Hk. reflexivity.
Qed.

(** X6. Whenever the chart data exist, so do the columns, and the columns
    after the label column are the periods of the chart's points, in the
    same order. *)
Theorem columns_match_chart
        (data : list MetricRecord) (pts : list SeriesPoint) :
  chartData data = Normal pts ->
  exists cols,
    columns data = Normal cols /\
    map accessorKey cols = "metric" :: map year pts.
Proof.
  intros H. destruct data as [|r0 rest]; [discriminate|].
  destruct (columns_cons r0 rest) as (cols & Hc & Hk).
  exists cols. split; [exact Hc|]. rewrite Hk. f_equal.
  destruct rest as [|r1 [|r2 rest]].
  - rewrite chartData_short in H by (simpl; lia).
    destruct (period_keys r0); [now injection H as <- | discriminate].
  - rewrite chartData_short in H by (simpl; lia).
    destruct (period_keys r0); [now injection H as <- | discriminate].
  - rewrite chartData_three in H. injection H as <-.
    now rewrite map_map, map_id.
Qed.

Lemma columns_match_chart_witness :
  exists pts cols,
    chartData data = Normal pts /\
    columns data = Normal cols /\
    map accessorKey cols = "metric" :: map year pts.
Proof.
  destruct chartData_of_source_table as (pts & Hpts & _).
  destruct (columns_match_chart data pts Hpts) as (cols & Hc & Hk).
  now exists pts, cols.
Defined.

(* ================================================================== *)
(** ** More on the formatter *)

(** X7. Formatting is idempotent: a formatted value given to the formatter
    again, under any metric name, comes back unchanged. *)
Theorem formatValue_idempotent (value : Value) (metric metric' : string) :
  bind (formatValue value metric) (fun r => formatValue r metric')
  = formatValue value metric.
Proof.
  destruct (string_dec (typeof value) "number") as [Ht|Ht].
  - apply typeof_number in Ht as [x ->].
    destruct (formatValue_number_string x metric) as [s ->]. reflexivity.
  - rewrite (formatValue_passthrough _ metric Ht). simpl.
    now apply formatValue_passthrough.
Qed.

Lemma last_char_append (a b : string) :
  last_char (a ++ b) =
  match last_char b with
  | Some c => Some c
  | None => last_char a
  end.
Proof.
  induction a as [|x a IH]; simpl.
  - now destruct (last_char b).
  - rewrite IH. now destruct (last_char b), (last_char a).
Qed.

Lemma ends_with_last_char (s : string) (c : ascii) :
  ends_with s (String c "") <-> last_char s = Some c.
Proof.
  split.
  - intros [pre ->]. now rewrite last_char_append.
  - induction s as [|x s IH]; simpl; [discriminate|].
    destruct (last_char s) as [c'|] eqn:E.
    + intros H. destruct (IH H) as [pre ->]. now exists (String x pre).
    + intros H. injection H as ->. destruct s as [|y s].
      * now exists "".
      * simpl in E. destruct (last_char s); discriminate.
Qed.

Lemma compact_usd_last_char (s : string) :
  compact_usd_string s -> last_char s <> Some "%"%char.
Proof.
  intros [negative integer d1 d2 suffix _ _ Hd2 Hin].
  rewrite !last_char_append. cbn [last_char].
  unfold magnitude_suffixes in Hin. simpl in Hin.
  destruct Hin as [<-|[<-|[<-|[<-|[<-|[]]]]]]; cbn [last_char];
    try discriminate.
  intros E. injection E as ->. discriminate.
Qed.

Lemma currency_last_char (x : float) :
  last_char (Intl.format currency_format x) <> Some "%"%char.
Proof.
  destruct (Number_isFinite x) eqn:Hfin.
  - apply compact_usd_last_char. now apply format_finite_compact_usd.
  - unfold Number_isFinite in Hfin. unfold Intl.format.
    destruct (Prim2SF x) as [s|[|]| |s m e]; try discriminate;
      vm_compute; discriminate.
Qed.

(** X8. The last character tells the branch: the string returned for a
    number ends with "%" exactly when the metric name contains "ROIC" or
    "Margins". *)
Theorem formatValue_percent_sign (v : float) (metric : string) :
  exists s,
    formatValue (VNum v) metric = Normal (VStr s) /\
    (ends_with s "%" <->
     contains metric "ROIC" \/ contains metric "Margins").
Proof.
  destruct (String_includes metric "ROIC" || String_includes metric "Margins")
    eqn:Hb.
  - destruct (formatValue_percentage_digits metric v Hb) as (d & _ & Hf).
    exists (d ++ "%"). split; [exact Hf|].
    split; [intros _; now apply includes_percentage_names | now exists d].
  - exists (Intl.format currency_format v).
    split; [now apply formatValue_currency|]. split.
    + intros H. apply ends_with_last_char in H.
      now apply currency_last_char in H.
    + intros H. apply includes_percentage_names in H. congruence.
Qed.

Lemma format_sign_prefix (x : float) :
  String.prefix "-" (Intl.format currency_format x) =
  match Prim2SF x with
  | S754_zero negative | S754_infinity negative | S754_finite negative _ _ =>
      negative
  | S754_nan => false
  end.
Proof.
  unfold Intl.format.
  destruct (Prim2SF x) as [s|s| |s m e]; try (destruct s; reflexivity).
  - reflexivity.
  - destruct (shortest_decimal m e) as [d p]. destruct s; reflexivity.
Qed.

(** X9. In a currency column a red cell always shows a minus sign; a minus
    sign on a cell that is not red happens for minus zero only. *)
Theorem cell_red_and_minus_sign (value : float) (metric : string) :
  ~ (contains metric "ROIC" \/ contains metric "Margins") ->
  exists text,
    cell value metric =
    Normal {| className := if is_negative value then "text-red-500" else "";
              children := VStr text |} /\
    (is_negative value = true -> String.prefix "-" text = true) /\
    (String.prefix "-" text = true -> is_negative value = false ->
     Prim2SF value = S754_zero true).
Proof.
  intros Hname.
  assert (Hb : String_includes metric "ROIC"
               || String_includes metric "Margins" = false).
  { destruct (_ || _) eqn:E; [|reflexivity].
    now apply includes_percentage_names in E. }
  exists (Intl.format currency_format value). split.
  - unfold cell. rewrite (formatValue_currency _ _ Hb). simpl.
    now rewrite ltb_zero_is_negative.
  - rewrite format_sign_prefix. unfold is_negative.
    destruct (Prim2SF value) as [s|s| |s m e]; split; congruence.
Qed.

Lemma cell_red_and_minus_sign_witness :
  ~ (contains "NOPBT (DEFAULT)" "ROIC" \/ contains "NOPBT (DEFAULT)" "Margins")
  /\ exists text,
       cell (-26.74)%float "NOPBT (DEFAULT)"
       = Normal {| className := "text-red-500"; children := VStr text |} /\
       String.prefix "-" text = true.
Proof.
  assert (H : ~ (contains "NOPBT (DEFAULT)" "ROIC"
                 \/ contains "NOPBT (DEFAULT)" "Margins")).
  { intros [H|H]; revert H; apply String_includes_false; reflexivity. }
  split; [exact H|].
  destruct (cell_red_and_minus_sign (-26.74)%float "NOPBT (DEFAULT)" H)
    as (text & Hc & Hred & _).
  exists text. split; [exact Hc | exact (Hred eq_refl)].
Defined.

Lemma binary_round_aux_opp (prec emax : Z) (s : bool) (m e : Z)
      (l : SpecFloat.location) :
  SpecFloat.binary_round_aux prec emax (negb s) m e l
  = SFopp (SpecFloat.binary_round_aux prec emax s m e l).
Proof.
  unfold SpecFloat.binary_round_aux.
  destruct (SpecFloat.shr_fexp prec emax m e l) as [mrs e'].
  destruct (SpecFloat.shr_fexp prec emax _ e' SpecFloat.loc_Exact)
    as [mrs' e''].
  destruct (SpecFloat.shr_m mrs'); [reflexivity | | reflexivity].
  now destruct (Z.leb e'' (Z.sub emax prec)).
Qed.

Lemma SFmul_opp_l (prec emax : Z) (a b : spec_float) :
  SFmul prec emax (SFopp a) b = SFopp (SFmul prec emax a b).
Proof.
  destruct a as [sa|sa| |sa ma ea], b as [sb|sb| |sb mb eb]; simpl;
    try reflexivity; try (now destruct sa, sb).
  rewrite <- binary_round_aux_opp. now destruct sa, sb.
Qed.

(** Negating a number negates its hundredfold. *)
Lemma times_100_opp (v : float) :
  Prim2SF (- v * 100)%float = SFopp (Prim2SF (v * 100)%float).
Proof.
  rewrite !mul_spec, opp_spec. apply SFmul_opp_l.
Qed.

Lemma Number_toFixed_opp (x y : float) (digits : string) :
  Prim2SF y = SFopp (Prim2SF x) ->
  is_positive x = true ->
  Number_toFixed x 1 = Normal digits ->
  Number_toFixed y 1 = Normal ("-" ++ digits).
Proof.
  unfold is_positive, Number_toFixed. intros -> Hpos.
  destruct (Prim2SF x) as [s|s| |s m e]; try discriminate;
    destruct s; try discriminate; cbn [SFopp negb orb Z.ltb Z.compare].
  - intros H. now injection H as <-.
  - cbv zeta. destruct (Qle_bool _ _); intros H; now injection H as <-.
Qed.

Lemma format_opp (x : float) :
  has_positive_sign x = true ->
  Intl.format currency_format (- x)
  = "-" ++ Intl.format currency_format x.
Proof.
  unfold has_positive_sign, Intl.format. rewrite opp_spec.
  destruct (Prim2SF x) as [s|s| |s m e]; try discriminate;
    destruct s; try discriminate; intros _; cbn [SFopp negb].
  - reflexivity.
  - reflexivity.
  - now destruct (shortest_decimal m e).
Qed.

(** X10. Negating the number puts a minus sign before the formatted text:
    in the currency branch for every number of positive sign (plus zero and
    plus infinity included), in the percentage branch whenever the
    hundredfold is above zero. *)
Theorem formatValue_negation (v : float) (metric : string) :
  (contains metric "ROIC" \/ contains metric "Margins" ->
   is_positive (v * 100)%float = true) ->
  (~ (contains metric "ROIC" \/ contains metric "Margins") ->
   has_positive_sign v = true) ->
  exists text,
    formatValue (VNum v) metric = Normal (VStr text) /\
    formatValue (VNum (- v)%float) metric = Normal (VStr ("-" ++ text)).
Proof.
  intros Hpercent Hcurrency.
  destruct (String_includes metric "ROIC" || String_includes metric "Margins")
    eqn:Hb.
  - assert (Hname := proj1 (includes_percentage_names metric) Hb).
    destruct (formatValue_percentage_digits metric v Hb) as (d & Hd & Hf).
    exists (d ++ "%"). split; [exact Hf|].
    rewrite (formatValue_percentage _ _ Hb).
    rewrite (Number_toFixed_opp _ _ d (times_100_opp v) (Hpercent Hname) Hd).
    reflexivity.
  - assert (Hname : ~ (contains metric "ROIC" \/ contains metric "Margins")).
    { intros H. apply includes_percentage_names in H. congruence. }
    exists (Intl.format currency_format v).
    rewrite !(formatValue_currency _ _ Hb).
    split; [reflexivity|]. now rewrite (format_opp _ (Hcurrency Hname)).
Qed.

Lemma formatValue_negation_witness :
  exists text,
    formatValue (VNum 0.0210%float) "ROIC (DEFAULT)" = Normal (VStr text) /\
    formatValue (VNum (- 0.0210)%float) "ROIC (DEFAULT)"
    = Normal (VStr ("-" ++ text)).
Proof.
  apply (formatValue_negation 0.0210%float "ROIC (DEFAULT)").
  - intros _. reflexivity.
  - intros H. exfalso. apply H. left. exists "", " (DEFAULT)". reflexivity.
Defined.

(* ================================================================== *)
(** ** Short amounts *)

Lemma magnitude_negative (q : Q) :
  (0 < q)%Q -> (q < 1)%Q -> magnitude q < 0.
Proof.
  destruct q as [a b]. unfold Qlt, magnitude. simpl. intros H0 H1.
  destruct (Z.leb_spec (Zpos b) a) as [|_]; [lia|].
  assert (Hd := ndigits_aux_pos (Z.to_nat (Z.log2 (Zpos b / a))) (Zpos b / a)).
  fold (ndigits (Zpos b / a)) in Hd.
  set (t := Z.of_nat (ndigits (Zpos b / a)) - 1).
  assert (Ht : 0 <= t) by (unfold t; lia).
  destruct (Z.eqb_spec (a * 10 ^ t) (Zpos b)) as [E|_]; [|lia].
  assert (t <> 0); [|lia].
  intros Ht0. rewrite Ht0 in E. simpl in E. lia.
Qed.

Lemma exponent_for_magnitude_low (k : Z) :
  k < 3 -> Intl.ComputeExponentForMagnitude k = 0.
Proof.
  intros H. unfold Intl.ComputeExponentForMagnitude.
  destruct (Z.ltb_spec k 3); [reflexivity | lia].
Qed.

(** Below one the compact exponent is zero. *)
Lemma ComputeExponent_below_one (q : Q) :
  (0 < q)%Q -> (q < 1)%Q -> Intl.ComputeExponent q 2 = 0.
Proof.
  intros H0 H1. assert (Hk := magnitude_negative q H0 H1).
  unfold Intl.ComputeExponent. cbv zeta.
  rewrite (exponent_for_magnitude_low (magnitude q)) by lia.
  destruct (_ =? 0); [reflexivity|].
  destruct (_ =? _); [reflexivity|].
  apply exponent_for_magnitude_low. lia.
Qed.

Lemma magnitude_of_hundredths (n : Z) :
  100 <= n ->
  n < 100 * 10 ^ (magnitude (n # Z.to_pos (pow10 2)) + 1).
Proof.
  intros Hn.
  assert (H1 : (1 <= n # Z.to_pos (pow10 2))%Q).
  { unfold Qle. cbn [Qnum Qden]. change (Z.pos (Z.to_pos (pow10 2))) with 100.
    lia. }
  destruct (magnitude_bounds _ H1) as (_ & _ & Hhi).
  unfold Qlt in Hhi. cbn [Qnum Qden inject_Z] in Hhi.
  change (Z.pos (Z.to_pos (pow10 2))) with 100 in Hhi. lia.
Qed.

(** From one up to 999.995 trillion the rounded amount, scaled by the
    compact exponent, stays below a thousand: when rounding carries it to
    a thousand, the exponent of the next magnitude is taken. *)
Lemma compact_amount_below_thousand (q : Q) :
  (1 <= q)%Q -> (q < inject_Z 999995000000000)%Q ->
  Intl.ToRawFixed (q * exp10 (- Intl.ComputeExponent q 2)) 2 < 100000.
Proof.
  intros H1 Hlt.
  destruct (magnitude_bounds q H1) as (Hk & Hlo & Hhi).
  assert (Hk15 : magnitude q < 15).
  { apply magnitude_below; [exact H1 | lia |].
    eapply Qlt_trans; [exact Hlt|]. reflexivity. }
  change (inject_Z 999995000000000) with (999995000000000 # 1)%Q in Hlt.
  unfold Intl.ComputeExponent. cbv zeta.
  set (k := magnitude q) in *.
  assert (Hcases : k = 0 \/ k = 1 \/ k = 2 \/ k = 3 \/ k = 4 \/ k = 5 \/ k = 6
                   \/ k = 7 \/ k = 8 \/ k = 9 \/ k = 10 \/ k = 11 \/ k = 12
                   \/ k = 13 \/ k = 14) by lia.
  clearbody k.
  repeat (destruct Hcases as [Hcases|Hcases]); subst k;
    repeat match goal with
           | |- context [Intl.ComputeExponentForMagnitude ?a] =>
               let c := eval vm_compute in
                          (Intl.ComputeExponentForMagnitude a) in
               change (Intl.ComputeExponentForMagnitude a) with c
           end;
    repeat match goal with
           | H : context [inject_Z (10 ^ ?k)] |- _ =>
               let c := eval vm_compute in (inject_Z (10 ^ k)) in
               change (inject_Z (10 ^ k)) with c in H
           end;
    match goal with
    | |- context [Intl.ToRawFixed ?x 2 =? 0] =>
        destruct (Z.eqb_spec (Intl.ToRawFixed x 2) 0) as [Hz|Hz];
        cbv iota;
        [rewrite Hz; lia|];
        assert (H100 : 100 <= Intl.ToRawFixed x 2)
    end.
  all: match goal with
       | |- 100 <= _ => apply Qfloor_above
       | _ =>
           assert (Hmag := magnitude_of_hundredths _ H100);
           match goal with
           | |- context [?m =? ?d] =>
               destruct (Z.eqb_spec m d) as [Hm|Hm]; cbv iota;
               [rewrite Hm in Hmag;
                let c := eval vm_compute in (100 * 10 ^ (d + 1)) in
                change (100 * 10 ^ (d + 1)) with c in Hmag; lia
               |apply Qfloor_below]
           end
       end.
  all: repeat match goal with
              | |- context [exp10 (- ?e)] =>
                  let c := eval vm_compute in (exp10 (- e)) in
                  change (exp10 (- e)) with c
              end;
       change (inject_Z (pow10 2)) with (100 # 1)%Q;
       try change (inject_Z 100) with (100 # 1)%Q;
       try change (inject_Z 100000) with (100000 # 1)%Q; lra.
Qed.

Lemma exp10_pos (k : Z) : (0 < exp10 k)%Q.
Proof.
  destruct k as [|p|p]; unfold exp10, Qlt; cbn [Qnum Qden inject_Z].
  - lia.
  - assert (H := Z.pow_pos_nonneg 10 (Z.pos p)). lia.
  - lia.
Qed.

Lemma shortest_digits_nonneg (fuel k : nat) (m : positive) (e : Z) :
  0 <= fst (shortest_digits fuel k m e).
Proof.
  revert k. induction fuel as [|fuel IH]; intros k;
    assert (H0 : 0 <= Qfloor (Q_of_finite m e
                              * exp10 (- (magnitude (Q_of_finite m e) + 1
                                          - Z.of_nat k)))).
  1,3: apply Qfloor_above; apply Qmult_le_0_compat;
       [apply Qlt_le_weak, Q_of_finite_pos | apply Qlt_le_weak, exp10_pos].
  - exact H0.
  - cbn [shortest_digits].
    repeat match goal with
           | |- context [if ?b then _ else _] => destruct b
           | |- context [match ?c with Eq => _ | Lt => _ | Gt => _ end] =>
               destruct c
           end; cbn [fst]; try lia; apply IH.
Qed.

Lemma decimal_reading_nonneg (x : float) (negative : bool) (q : Q) :
  decimal_reading x = Some (negative, q) -> (0 <= q)%Q.
Proof.
  unfold decimal_reading.
  destruct (Prim2SF x) as [s|s| |s m e]; try discriminate.
  - intros E. injection E as <- <-. apply Qle_refl.
  - unfold shortest_decimal.
    assert (H := shortest_digits_nonneg 17 1 m e).
    destruct (shortest_digits 17 1 m e) as [d p]. cbn [fst] in H.
    destruct (Z.eqb_spec d 10); intros E; injection E as <- <-;
      (apply Qmult_le_0_compat; [|apply Qlt_le_weak, exp10_pos]);
      unfold Qle; cbn [Qnum Qden inject_Z]; lia.
Qed.

Lemma compact_amount_range (q : Q) :
  (0 <= q)%Q -> (q < inject_Z 999995000000000)%Q ->
  0 <= Intl.ToRawFixed (q * exp10 (- Intl.ComputeExponent q 2)) 2 < 100000.
Proof.
  intros H0 Hlt. split.
  - apply Qfloor_above.
    assert (H : (0 <= q * exp10 (- Intl.ComputeExponent q 2)
                      * inject_Z (pow10 2))%Q).
    { apply Qmult_le_0_compat; [apply Qmult_le_0_compat|];
        [exact H0 | apply Qlt_le_weak, exp10_pos | discriminate]. }
    change (inject_Z 0) with 0%Q. lra.
  - destruct (Qlt_le_dec q 1) as [Hq1|Hq1];
      [|now apply compact_amount_below_thousand].
    destruct (Qlt_le_dec 0 q) as [Hq0|Hq0].
    + rewrite (ComputeExponent_below_one q Hq0 Hq1).
      apply Qfloor_below.
      change (exp10 (- 0)) with 1%Q.
      change (inject_Z (pow10 2)) with (100 # 1)%Q.
      change (inject_Z 100000) with (100000 # 1)%Q. lra.
    + assert (E : (q * exp10 (- Intl.ComputeExponent q 2) == 0)%Q).
      { assert (Hq : (q == 0)%Q) by (apply Qle_antisym; assumption).
        generalize (exp10 (- Intl.ComputeExponent q 2)). intros e.
        unfold Qeq in *. cbn [Qnum Qden Qmult] in *. nia. }
      rewrite (ToRawFixed_Qeq _ _ 2 E). vm_compute. reflexivity.
Qed.

Lemma decimal_below_thousand (n : Z) :
  0 <= n < 1000 -> (1 <= String.length (decimal n) <= 3)%nat.
Proof.
  intros H.
  destruct (Z.lt_ge_cases n 10) as [H10|H10].
  { rewrite decimal_small by lia. simpl. lia. }
  rewrite decimal_step, length_append by lia. cbn [String.length].
  assert (Hd := Z.div_mod n 10 ltac:(lia)).
  assert (Hm := Z.mod_pos_bound n 10 ltac:(lia)).
  destruct (Z.lt_ge_cases n 100) as [H100|H100].
  { rewrite decimal_small by lia. simpl. lia. }
  rewrite decimal_step, length_append by lia.
  assert (Hd' := Z.div_mod (n / 10) 10 ltac:(lia)).
  assert (Hm' := Z.mod_pos_bound (n / 10) 10 ltac:(lia)).
  rewrite decimal_small by lia. simpl. lia.
Qed.

Lemma group_min2_short (s : string) :
  (String.length s < 5)%nat -> Intl.group_min2 s = s.
Proof.
  intros H. unfold Intl.group_min2.
  destruct (Nat.leb_spec 5 (String.length s)); [lia | reflexivity].
Qed.

(** The number part of an amount below a thousand: one to three digits,
    a point, two digits. *)
Lemma number_part_below_thousand (n : Z) (suffix : string) :
  0 <= n < 100000 ->
  exists integer d1 d2,
    Intl.number_part currency_options n ++ suffix
    = integer ++ "." ++ String d1 (String d2 suffix) /\
    all_digits integer /\
    (1 <= String.length integer <= 3)%nat /\
    is_digit d1 = true /\ is_digit d2 = true.
Proof.
  intros H.
  assert (Hd := Z.div_mod n 100 ltac:(lia)).
  assert (Hm := Z.mod_pos_bound n 100 ltac:(lia)).
  assert (Hl := decimal_below_thousand (n / 100) ltac:(lia)).
  exists (decimal (n / 100)), (digit_char (n / 10 mod 10)),
    (digit_char (n mod 10)).
  rewrite number_part_two_decimals, group_min2_short by lia.
  rewrite !append_assoc.
  repeat split; try apply digit_char_is_digit; try lia.
  apply decimal_digits.
Qed.

(** X11. Compact notation keeps amounts short: a finite number read
    below 999.995 trillion is formatted, in the currency branch, with one
    to three integer digits and no grouping separator, a point, two
    digits and a magnitude suffix.  So 999999 reads "$1.00M", not
    "$1,000.00K". *)
Theorem formatValue_three_integer_digits
        (metric : string) (v : float) (negative : bool) (q : Q) :
  ~ contains metric "ROIC" ->
  ~ contains metric "Margins" ->
  decimal_reading v = Some (negative, q) ->
  (q < inject_Z 999995000000000)%Q ->
  exists integer d1 d2 suffix,
    formatValue (VNum v) metric
    = Normal (VStr (Intl.sign_of negative ++ "$" ++ integer ++ "."
                    ++ String d1 (String d2 suffix))) /\
    all_digits integer /\
    (1 <= String.length integer <= 3)%nat /\
    is_digit d1 = true /\ is_digit d2 = true /\
    In suffix magnitude_suffixes.
Proof.
  intros HR HM Hv Hlt.
  assert (Hb : String_includes metric "ROIC"
               || String_includes metric "Margins" = false).
  { apply orb_false_iff. split; now apply String_includes_false. }
  assert (H0 := decimal_reading_nonneg v negative q Hv).
  rewrite (formatValue_currency _ _ Hb).
  revert Hv. unfold decimal_reading, Intl.format.
  destruct (Prim2SF v) as [s|s| |s m e]; try discriminate.
  - intros E. injection E as <- _.
    exists "0", "0"%char, "0"%char, "".
    repeat split; try reflexivity; simpl; try lia; [|now left].
    repeat constructor.
  - destruct (shortest_decimal m e) as [d p].
    intros E. injection E as <- <-.
    unfold Intl.format_finite. cbv zeta.
    change (Intl.maximumFractionDigits (Intl.nf_options currency_format))
      with 2%nat.
    set (E := Intl.ComputeExponent (inject_Z d * exp10 p) 2).
    destruct (number_part_below_thousand
                (Intl.ToRawFixed (inject_Z d * exp10 p * exp10 (- E)) 2)
                (Intl.compact_symbol E)
                (compact_amount_range _ H0 Hlt))
      as (integer & d1 & d2 & Hn & Hd & Hl & H1 & H2).
    exists integer, d1, d2, (Intl.compact_symbol E).
    repeat split; try assumption; try lia; [|apply compact_symbol_suffix].
    change (Intl.currency_symbol (Intl.nf_locale currency_format)
              (Intl.currency (Intl.nf_options currency_format))) with "$".
    change (Intl.nf_options currency_format) with currency_options.
    now rewrite Hn.
Qed.

Lemma formatValue_three_integer_digits_witness :
  ~ contains "Revenue (DEFAULT)" "ROIC" /\
  ~ contains "Revenue (DEFAULT)" "Margins" /\
  decimal_reading 999999%float = Some (false, 999999 # 1) /\
  (999999 # 1 < inject_Z 999995000000000)%Q /\
  formatValue (VNum 999999%float) "Revenue (DEFAULT)"
  = Normal (VStr "$1.00M") /\
  exists integer d1 d2 suffix,
    formatValue (VNum 999999%float) "Revenue (DEFAULT)"
    = Normal (VStr (Intl.sign_of false ++ "$" ++ integer ++ "."
                    ++ String d1 (String d2 suffix))) /\
    all_digits integer /\
    (1 <= String.length integer <= 3)%nat /\
    is_digit d1 = true /\ is_digit d2 = true /\
    In suffix magnitude_suffixes.
Proof.
  assert (HR : ~ contains "Revenue (DEFAULT)" "ROIC")
    by (apply String_includes_false; reflexivity).
  assert (HM : ~ contains "Revenue (DEFAULT)" "Margins")
    by (apply String_includes_false; reflexivity).
  assert (Hv : decimal_reading 999999%float = Some (false, 999999 # 1))
    by (vm_compute; reflexivity).
  assert (Hlt : (999999 # 1 < inject_Z 999995000000000)%Q) by reflexivity.
  split; [exact HR|]. split; [exact HM|]. split; [exact Hv|].
  split; [exact Hlt|]. split; [vm_compute; reflexivity|].
  exact (formatValue_three_integer_digits _ _ _ _ HR HM Hv Hlt).
Defined.

(* ================================================================== *)
(** ** Header clicks *)

Import Sorting.

Lemma header_click_single (column : string) (sorting : SortingState) :
  (List.length sorting <= 1)%nat ->
  header_click column sorting =
  [ {| id := column; desc := is_asc (getIsSorted column sorting) |} ].
Proof.
  intros Hlen. unfold header_click.
  set (direction := is_asc (getIsSorted column sorting)). clearbody direction.
  destruct sorting as [|d [|d' rest]]; [reflexivity | | simpl in Hlen; lia].
  unfold toggleSorting. cbn [findIndex find List.length map].
  destruct (String.eqb_spec (id d) column) as [E|E].
  - cbn. now rewrite E.
  - reflexivity.
Qed.

Lemma after_clicks_snoc (clicked : list string) (column : string) :
  after_clicks (clicked ++ [column])
  = header_click column (after_clicks clicked).
Proof. unfold after_clicks. now rewrite fold_left_app. Qed.

Lemma after_clicks_length (clicked : list string) :
  (List.length (after_clicks clicked) <= 1)%nat.
Proof.
  induction clicked as [|column clicked IH] using rev_ind; [simpl; lia|].
  rewrite after_clicks_snoc, header_click_single by exact IH. simpl. lia.
Qed.

(** X12. However the headers are clicked, the table is sorted by one
    column at a time.  After a click the sorting is the clicked column
    alone: descending when that column was sorted ascending, ascending when
    it was sorted descending or was not the sorted column; no click ever
    removes the sorting. *)
Theorem header_clicks_sort_one_column
        (clicked : list string) (column : string) :
  (List.length (after_clicks clicked) <= 1)%nat /\
  after_clicks (clicked ++ [column])
  = [ {| id := column;
         desc := is_asc (getIsSorted column (after_clicks clicked)) |} ] /\
  getIsSorted column (after_clicks (clicked ++ [column]))
  = match getIsSorted column (after_clicks clicked) with
    | Asc => Desc
    | Desc | Unsorted => Asc
    end /\
  (forall other,
      other <> column ->
      getIsSorted other (after_clicks (clicked ++ [column])) = Unsorted).
Proof.
  assert (Hlen := after_clicks_length clicked).
  rewrite after_clicks_snoc, header_click_single by exact Hlen.
  split; [exact Hlen|]. split; [reflexivity|]. split.
  - unfold getIsSorted at 1. cbn [find id desc].
    rewrite String.eqb_refl.
    now destruct (getIsSorted column (after_clicks clicked)).
  - intros other Hne. unfold getIsSorted at 1. cbn [find id].
    destruct (String.eqb_spec column other); [congruence | reflexivity].
Qed.

(* ================================================================== *)
(** ** The spreadsheet export *)

Import Spreadsheet.

Lemma exportToExcel_outcome (h : Host) (data : list MetricRecord)
      (tr : list Event) :
  exportToExcel h data tr =
  match json_to_sheet h data with
  | Throw e => (tr, Throw e)
  | Normal ws =>
      match book_new h with
      | Throw e => (tr, Throw e)
      | Normal wb =>
          match book_append_sheet h wb ws "HCC Financial Data" with
          | Throw e => (tr, Throw e)
          | Normal _ =>
              match writeFile h wb "HCC_financial_data.xlsx" with
              | Throw e =>
                  ((tr ++ [SheetAppended wb ws "HCC Financial Data"])%list,
                   Throw e)
              | Normal _ =>
                  ((tr ++ [SheetAppended wb ws "HCC Financial Data";
                           FileWritten wb "HCC_financial_data.xlsx"])%list,
                   Normal tt)
              end
          end
      end
  end.
Proof.
  unfold exportToExcel, seq, lift, emit.
  destruct (json_to_sheet h data) as [ws|e]; [|reflexivity].
  destruct (book_new h) as [wb|e]; [|reflexivity].
  destruct (book_append_sheet h wb ws _) as [[]|e]; [|reflexivity].
  destruct (writeFile h wb _) as [[]|e]; [|reflexivity].
  now rewrite <- app_assoc.
Qed.

(** X13. The spreadsheet export has no handler: the first failure among
    its four library calls reaches the caller, and then no file is written.
    When all four succeed, exactly one file is written: the one workbook,
    holding the one sheet built from the raw table, under the fixed sheet
    and file names. *)
Theorem exportToExcel_propagates_failures
        (h : Host) (data : list MetricRecord) (tr : list Event) :
  match spreadsheet_attempt h data with
  | Throw e =>
      exists added,
        exportToExcel h data tr = ((tr ++ added)%list, Throw e) /\
        forall wb name, ~ In (FileWritten wb name) added
  | Normal (wb, ws) =>
      json_to_sheet h data = Normal ws /\
      exportToExcel h data tr =
      ((tr ++ [SheetAppended wb ws "HCC Financial Data";
               FileWritten wb "HCC_financial_data.xlsx"])%list,
       Normal tt)
  end.
Proof.
  rewrite exportToExcel_outcome. unfold spreadsheet_attempt.
  destruct (json_to_sheet h data) as [ws|e0]; cbn [bind];
    [|exists []; rewrite app_nil_r; now split].
  destruct (book_new h) as [wb|e0]; cbn [bind];
    [|exists []; rewrite app_nil_r; now split].
  destruct (book_append_sheet h wb ws _) as [[]|e0]; cbn [bind];
    [|exists []; rewrite app_nil_r; now split].
  destruct (writeFile h wb _) as [[]|e0]; cbn [bind].
  - now split.
  - exists [SheetAppended wb ws "HCC Financial Data"].
    split; [reflexivity|]. intros wb' name [H|[]]. discriminate.
Qed.
